(** * The LC-3 virtual machine of [src/vm/VM.c]

    A shallow embedding of the execution engine of [VM.c] (memory, register
    file, [mem_read]/[mem_write], [update_flags], [sign_extend] and the
    fetch/decode/execute loop of [main]) together with the properties of the
    written specification that have been checked against it.

    Conventions.
    - A [uint16_t] is a [Z]; every place where C converts an [int] back to
      [uint16_t] is written [u16].
    - The global arrays [mem] and [reg] are total functions [Z -> Z] updated
      with [upd]; only indices [0 .. MEM_MAX-1] (resp. [0 .. R_COUNT-1]) are
      ever used.
    - The terminal is a record [host]: the characters waiting on stdin,
      whether stdin has been closed, the bytes written to stdout, and how
      many of the waiting characters already sit in the buffer of the
      stdin stream, where [getchar] finds them and [select] does not.
      Terminal modes ([disable_input_buffering], [restore_input_buffering]),
      [fflush] and the SIGINT handler have no counterpart here.
    - One turn of the loop of [main] is the function [step]; it returns an
      [outcome] that tells whether the loop goes on, and in which state. *)

From Stdlib Require Import ZArith List Bool Ascii String Lia.
Import ListNotations.
Local Open Scope Z_scope.

(** ** Words, memory and registers *)

(** [#define MEM_MAX (1<<16)] *)
Definition MEM_MAX : Z := Z.shiftl 1 16.

(** Conversion of an [int] to [uint16_t]. *)
Definition u16 (x : Z) : Z := x mod MEM_MAX.

(** In-place update of one cell of an array. *)
Definition upd (f : Z -> Z) (k v : Z) : Z -> Z :=
  fun a => if a =? k then v else f a.

(** Registers *)
Definition R_R0 : Z := 0.
Definition R_R1 : Z := 1.
Definition R_R2 : Z := 2.
Definition R_R3 : Z := 3.
Definition R_R4 : Z := 4.
Definition R_R5 : Z := 5.
Definition R_R6 : Z := 6.
Definition R_R7 : Z := 7.
Definition R_PC : Z := 8.
Definition R_COND : Z := 9.
Definition R_COUNT : Z := 10.

(** Instructions *)
Definition OP_BR : Z := 0.
Definition OP_ADD : Z := 1.
Definition OP_LD : Z := 2.
Definition OP_ST : Z := 3.
Definition OP_JSR : Z := 4.
Definition OP_AND : Z := 5.
Definition OP_LDR : Z := 6.
Definition OP_STR : Z := 7.
Definition OP_RTI : Z := 8.
Definition OP_NOT : Z := 9.
Definition OP_LDI : Z := 10.
Definition OP_STI : Z := 11.
Definition OP_JMP : Z := 12.
Definition OP_RES : Z := 13.
Definition OP_LEA : Z := 14.
Definition OP_TRAP : Z := 15.

(** Condition flags *)
Definition FL_POS : Z := Z.shiftl 1 0.
Definition FL_ZRO : Z := Z.shiftl 1 1.
Definition FL_NEG : Z := Z.shiftl 1 2.

(** Trap codes *)
Definition TRAP_GETC : Z := 0x20.
Definition TRAP_OUT : Z := 0x21.
Definition TRAP_PUTS : Z := 0x22.
Definition TRAP_IN : Z := 0x23.
Definition TRAP_PUTSP : Z := 0x24.
Definition TRAP_HALT : Z := 0x25.

(** Memory mapped registers *)
Definition MR_KBSR : Z := 0xFE00.
Definition MR_KBDR : Z := 0xFE02.

Definition PC_START : Z := 0x3000.

(** ** The host terminal *)

Record host : Type := mkHost {
  keys : list ascii;   (* characters typed and not yet read, oldest first *)
  closed : bool;       (* stdin is at end of file once [keys] is used up *)
  out : list ascii;    (* bytes written to stdout, oldest first *)
  buffered : nat;      (* how many of the first [keys] a [read] has already
                          moved from the descriptor into the buffer of the
                          stdin stream *)
  bufsiz : nat         (* the size of that buffer *)
}.

Definition EOF : Z := -1.

(** [getchar] returns without waiting when an unread character is left, in
    the buffer of the stream or at the descriptor, or when the stream is at
    end of file. *)
Definition stdin_ready (h : host) : bool :=
  match keys h with
  | [] => closed h
  | _ :: _ => true
  end.

(** [check_key]: [select] on the descriptor 0 with a zero timeout. It
    reports the descriptor readable when a character waits there, one that
    no [read] has taken yet, or when the descriptor is at end of file; the
    characters in the buffer of the stream are out of its sight. *)
Definition check_key (h : host) : bool :=
  Nat.ltb (buffered h) (List.length (keys h)) || closed h.

(** What is left in the buffer of the stream once [getchar] has returned a
    character: one less than before, or, when the buffer was empty, one
    less than the [read] that filled it has delivered, which is what waits
    at the descriptor, up to the size of the buffer and at least one
    character. *)
Definition left_in_buffer (h : host) : nat :=
  match buffered h with
  | S b => b
  | O => Nat.pred (Nat.min (List.length (keys h)) (Nat.max 1 (bufsiz h)))
  end.

(** [getchar()] on a ready stdin: the next unread character as an [int] in
    [0 .. 255], or [EOF]. *)
Definition getchar (h : host) : Z * host :=
  match keys h with
  | c :: k =>
      (Z.of_N (N_of_ascii c),
       mkHost k (closed h) (out h) (left_in_buffer h) (bufsiz h))
  | [] => (EOF, h)
  end.

(** [putc(c, stdout)]: the [int] is written as an [unsigned char]. *)
Definition char_of_int (c : Z) : ascii := ascii_of_N (Z.to_N (c mod 256)).

Definition putc (c : Z) (h : host) : host :=
  mkHost (keys h) (closed h) (out h ++ [char_of_int c]) (buffered h) (bufsiz h).

Definition put_string (str : string) (h : host) : host :=
  mkHost (keys h) (closed h) (out h ++ list_ascii_of_string str)
         (buffered h) (bufsiz h).

(** Value of a C [char] holding the byte [b], as an [int]; whether [char] is
    signed is fixed by the platform's ABI. *)
Definition int_of_char (char_signed : bool) (b : Z) : Z :=
  let b := b mod 256 in
  if char_signed && (128 <=? b) then b - 256 else b.

(** ** Machine state *)

Record state : Type := mkState {
  mem : Z -> Z;   (* u_int16_t mem[MEM_MAX] *)
  reg : Z -> Z;   (* u_int16_t reg[R_COUNT] *)
  io : host
}.

Definition set_mem (s : state) (a v : Z) : state :=
  mkState (upd (mem s) a v) (reg s) (io s).

Definition set_reg (s : state) (r v : Z) : state :=
  mkState (mem s) (upd (reg s) r v) (io s).

Definition set_io (s : state) (h : host) : state :=
  mkState (mem s) (reg s) h.

(** How one turn of the [while (running)] loop ends. *)
Inductive outcome : Type :=
| Running (s : state)     (* the loop goes on to the next fetch *)
| Halted (s : state)      (* [running = 0] *)
| Aborted (s : state)     (* [abort()] *)
| Blocked (s : state)     (* [getchar()] waits for a key that never comes *)
| Undefined (s : state).  (* a string read ran past the end of [mem] *)

Definition state_of (o : outcome) : state :=
  match o with
  | Running s | Halted s | Aborted s | Blocked s | Undefined s => s
  end.

Definition is_running (o : outcome) : bool :=
  match o with Running _ => true | _ => false end.

Definition is_aborted (o : outcome) : bool :=
  match o with Aborted _ => true | _ => false end.

(** ** update_flags, mem_write, mem_read, sign_extend *)

Definition update_flags (r : Z) (s : state) : state :=
  if reg s r =? 0 then set_reg s R_COND FL_ZRO
  else if negb (Z.shiftr (reg s r) 15 =? 0) then set_reg s R_COND FL_NEG
  else set_reg s R_COND FL_POS.

Definition mem_write (address val : Z) (s : state) : state :=
  set_mem s address val.

Definition mem_read (address : Z) (s : state) : Z * state :=
  let s' :=
    if address =? MR_KBSR then
      if check_key (io s) then
        let s1 := set_mem s MR_KBSR (Z.shiftl 1 15) in
        let (c, h) := getchar (io s1) in
        set_mem (set_io s1 h) MR_KBDR (u16 c)
      else set_mem s MR_KBSR 0
    else s in
  (mem s' address, s').

Definition sign_extend (x : Z) (bit_count : Z) : Z :=
  if negb (Z.land (Z.shiftr x (bit_count - 1)) 1 =? 0)
  then u16 (Z.lor x (Z.shiftl 0xFFFF bit_count))
  else x.

(** ** The instruction handlers of [main] *)

(** Operand fields of an instruction word. *)
Definition DR (instr : Z) : Z := Z.land (Z.shiftr instr 9) 0x7.
Definition SR1 (instr : Z) : Z := Z.land (Z.shiftr instr 6) 0x7.
Definition SR2 (instr : Z) : Z := Z.land instr 0x7.
Definition imm_flag (instr : Z) : Z := Z.land (Z.shiftr instr 5) 0x1.

(** [mem_read(reg[R_PC]++)] *)
Definition fetch (s : state) : Z * state :=
  let pc := reg s R_PC in
  mem_read pc (set_reg s R_PC (u16 (pc + 1))).

Definition op_add (instr : Z) (s : state) : outcome :=
  let r0 := DR instr in
  let r1 := SR1 instr in
  let s :=
    if negb (imm_flag instr =? 0) then
      let imm5 := sign_extend (Z.land instr 0x1F) 5 in
      set_reg s r0 (u16 (reg s r1 + imm5))
    else
      let r2 := SR2 instr in
      set_reg s r0 (u16 (reg s r1 + reg s r2)) in
  Running (update_flags r0 s).

Definition op_and (instr : Z) (s : state) : outcome :=
  let r0 := DR instr in
  let r1 := SR1 instr in
  let s :=
    if negb (imm_flag instr =? 0) then
      let imm5 := sign_extend (Z.land instr 0x1F) 5 in
      set_reg s r0 (u16 (Z.land (reg s r1) imm5))
    else
      let r2 := SR2 instr in
      set_reg s r0 (u16 (Z.land (reg s r1) (reg s r2))) in
  Running (update_flags r0 s).

Definition op_not (instr : Z) (s : state) : outcome :=
  let r0 := DR instr in
  let r1 := SR1 instr in
  let s := set_reg s r0 (u16 (Z.lnot (reg s r1))) in
  Running (update_flags r0 s).

Definition op_br (instr : Z) (s : state) : outcome :=
  let pc_offset := sign_extend (Z.land instr 0x1FF) 9 in
  let cond_flag := Z.land (Z.shiftr instr 9) 0x7 in
  if negb (Z.land cond_flag (reg s R_COND) =? 0)
  then Running (set_reg s R_PC (u16 (reg s R_PC + pc_offset)))
  else Running s.

Definition op_jmp (instr : Z) (s : state) : outcome :=
  let r1 := SR1 instr in
  Running (set_reg s R_PC (reg s r1)).

Definition op_jsr (instr : Z) (s : state) : outcome :=
  let long_flag := Z.land (Z.shiftr instr 11) 1 in
  let s := set_reg s R_R7 (reg s R_PC) in
  if negb (long_flag =? 0) then
    let long_pc_offset := sign_extend (Z.land instr 0x7FF) 11 in
    Running (set_reg s R_PC (u16 (reg s R_PC + long_pc_offset)))
  else
    let r1 := SR1 instr in
    Running (set_reg s R_PC (reg s r1)).

Definition op_ld (instr : Z) (s : state) : outcome :=
  let r0 := DR instr in
  let pc_offset := sign_extend (Z.land instr 0x1FF) 9 in
  let (v, s) := mem_read (u16 (reg s R_PC + pc_offset)) s in
  let s := set_reg s r0 v in
  Running (update_flags r0 s).

Definition op_ldi (instr : Z) (s : state) : outcome :=
  let r0 := DR instr in
  let pc_offset := sign_extend (Z.land instr 0x1FF) 9 in
  let (a, s) := mem_read (u16 (reg s R_PC + pc_offset)) s in
  let (v, s) := mem_read a s in
  let s := set_reg s r0 v in
  Running (update_flags r0 s).

Definition op_ldr (instr : Z) (s : state) : outcome :=
  let r0 := DR instr in
  let r1 := SR1 instr in
  let offset := sign_extend (Z.land instr 0x3F) 6 in
  let (v, s) := mem_read (u16 (reg s r1 + offset)) s in
  let s := set_reg s r0 v in
  Running (update_flags r0 s).

Definition op_lea (instr : Z) (s : state) : outcome :=
  let r0 := DR instr in
  let pc_offset := sign_extend (Z.land instr 0x1FF) 9 in
  let s := set_reg s r0 (u16 (reg s R_PC + pc_offset)) in
  Running (update_flags r0 s).

Definition op_st (instr : Z) (s : state) : outcome :=
  let r0 := DR instr in
  let pc_offset := sign_extend (Z.land instr 0x1FF) 9 in
  Running (mem_write (u16 (reg s R_PC + pc_offset)) (reg s r0) s).

Definition op_sti (instr : Z) (s : state) : outcome :=
  let r0 := DR instr in
  let pc_offset := sign_extend (Z.land instr 0x1FF) 9 in
  let (a, s) := mem_read (u16 (reg s R_PC + pc_offset)) s in
  Running (mem_write a (reg s r0) s).

Definition op_str (instr : Z) (s : state) : outcome :=
  let r0 := DR instr in
  let r1 := SR1 instr in
  let offset := sign_extend (Z.land instr 0x3F) 6 in
  Running (mem_write (u16 (reg s r1 + offset)) (reg s r0) s).

(** ** The trap routines *)

Section Platform.

(** Whether the C type [char] is signed on the platform the machine is
    compiled for. *)
Variable char_signed : bool.

(** The loop of TRAP_PUTS: as long as the word under [c] is not zero, write
    it with [putc] as a [char] and advance [c]. [c] is a pointer into [mem],
    here an index; [room] counts the cells from [c] to the end of the
    array, after which there is nothing left to read. *)
Fixpoint puts_loop (room : nat) (m : Z -> Z) (c : Z) (h : host) : option host :=
  match room with
  | O => None
  | S room' =>
      if negb (m c =? 0)
      then puts_loop room' m (c + 1) (putc (int_of_char char_signed (m c)) h)
      else Some h
  end.

(** The loop of TRAP_PUTSP: the low byte of each word, then its high byte
    when that is not zero. *)
Fixpoint putsp_loop (room : nat) (m : Z -> Z) (c : Z) (h : host) : option host :=
  match room with
  | O => None
  | S room' =>
      if negb (m c =? 0) then
        let char1 := int_of_char char_signed (Z.land (m c) 0xFF) in
        let h := putc char1 h in
        let char2 := int_of_char char_signed (Z.shiftr (m c) 8) in
        let h := if negb (char2 =? 0) then putc char2 h else h in
        putsp_loop room' m (c + 1) h
      else Some h
  end.

Definition newline : ascii := ascii_of_nat 10.

Definition op_trap (instr : Z) (s : state) : outcome :=
  let s := set_reg s R_R7 (reg s R_PC) in
  match Z.land instr 0xFF with
  | 0x20 (* TRAP_GETC *) =>
      if stdin_ready (io s) then
        let (c, h) := getchar (io s) in
        Running (set_reg (set_io s h) R_R0 (u16 c))
      else Blocked s
  | 0x21 (* TRAP_OUT *) =>
      Running (set_io s (putc (int_of_char char_signed (reg s R_R0)) (io s)))
  | 0x22 (* TRAP_PUTS *) =>
      let c := reg s R_R0 in
      match puts_loop (Z.to_nat (MEM_MAX - c)) (mem s) c (io s) with
      | Some h => Running (set_io s h)
      | None => Undefined s
      end
  | 0x23 (* TRAP_IN *) =>
      let s := set_io s (put_string "Enter a character: " (io s)) in
      if stdin_ready (io s) then
        let (i, h) := getchar (io s) in
        let c := int_of_char char_signed i in
        Running (set_reg (set_io s (putc c h)) R_R0 (u16 c))
      else Blocked s
  | 0x24 (* TRAP_PUTSP *) =>
      let c := reg s R_R0 in
      match putsp_loop (Z.to_nat (MEM_MAX - c)) (mem s) c (io s) with
      | Some h => Running (set_io s h)
      | None => Undefined s
      end
  | 0x25 (* TRAP_HALT *) =>
      Halted (set_io s (put_string (String.append "HALT" (String newline EmptyString)) (io s)))
  | _ => Running s
  end.

(** ** Decode and dispatch: the [switch (op)] of [main] *)

Definition execute (instr : Z) (s : state) : outcome :=
  let op := Z.shiftr instr 12 in
  match op with
  | 1 (* OP_ADD *) => op_add instr s
  | 5 (* OP_AND *) => op_and instr s
  | 9 (* OP_NOT *) => op_not instr s
  | 0 (* OP_BR *) => op_br instr s
  | 12 (* OP_JMP *) => op_jmp instr s
  | 4 (* OP_JSR *) => op_jsr instr s
  | 2 (* OP_LD *) => op_ld instr s
  | 10 (* OP_LDI *) => op_ldi instr s
  | 6 (* OP_LDR *) => op_ldr instr s
  | 14 (* OP_LEA *) => op_lea instr s
  | 3 (* OP_ST *) => op_st instr s
  | 11 (* OP_STI *) => op_sti instr s
  | 7 (* OP_STR *) => op_str instr s
  | 15 (* OP_TRAP *) => op_trap instr s
  | _ (* OP_RES, OP_RTI, default *) => Aborted s
  end.

(** One turn of the loop: fetch, then dispatch. *)
Definition step (s : state) : outcome :=
  let (instr, s) := fetch s in
  execute instr s.

(** At most [n] turns of the loop. *)
Fixpoint run (n : nat) (s : state) : outcome :=
  match n with
  | O => Running s
  | S n' =>
      match step s with
      | Running s' => run n' s'
      | o => o
      end
  end.

End Platform.

(** The machine as [main] sets it up: [image] is the memory left by the
    image loader, all registers are zero except the flags and the PC. *)
Definition init (image : Z -> Z) (h : host) : state :=
  mkState image (upd (upd (fun _ => 0) R_COND FL_ZRO) R_PC PC_START) h.

(** States the loop can be in at a fetch. *)
Inductive reachable (char_signed : bool) : state -> Prop :=
| reach_init (image : Z -> Z) (h : host) : reachable char_signed (init image h)
| reach_step (s s' : state) :
    reachable char_signed s -> step char_signed s = Running s' ->
    reachable char_signed s'.

(** ** Loading programs: swap16, read_image_file, read_image *)

(** Value of a byte of a file. *)
Definition byte_val (b : ascii) : Z := Z.of_N (N_of_ascii b).

(** [swap16]: the two halves of [x] shifted past each other and or-ed, as
    an [int], then returned as a [uint16_t]. *)
Definition swap16 (x : Z) : Z := u16 (Z.lor (Z.shiftl x 8) (Z.shiftr x 8)).

(** The [uint16_t] found in memory where [fread] has copied the bytes [b0]
    and [b1] of a file, in that order, on a host of the given byte order. *)
Definition raw_word (little_endian : bool) (b0 b1 : ascii) : Z :=
  if little_endian
  then byte_val b0 + 256 * byte_val b1
  else 256 * byte_val b0 + byte_val b1.

(** [ntohs] of the C library: network (big-endian) to host order. *)
Definition ntohs (little_endian : bool) (x : Z) : Z :=
  if little_endian then 256 * (x mod 256) + x / 256 mod 256 else x.

(** [fread(p, sizeof(uint16_t), count, file)] on the bytes left in the
    file: the complete elements read, at most [count] of them, and whether
    the file ended in the middle of an element. *)
Fixpoint fread_words (little_endian : bool) (count : nat) (bs : list ascii)
  : list Z * bool :=
  match count with
  | O => ([], false)
  | S count' =>
      match bs with
      | b0 :: b1 :: rest =>
          let (ws, partial) := fread_words little_endian count' rest in
          (raw_word little_endian b0 b1 :: ws, partial)
      | [_] => ([], true)
      | [] => ([], false)
      end
  end.

(** The elements read are stored from the cell [p] on. *)
Fixpoint store_words (m : Z -> Z) (p : Z) (ws : list Z) : Z -> Z :=
  match ws with
  | [] => m
  | w :: ws' => store_words (upd m p w) (p + 1) ws'
  end.

(** The loop that brings the [read] words from [p] on into host order. *)
Fixpoint swap_words (little_endian : bool) (read : nat) (m : Z -> Z) (p : Z)
  : Z -> Z :=
  match read with
  | O => m
  | S read' =>
      swap_words little_endian read' (upd m p (ntohs little_endian (m p))) (p + 1)
  end.

(** [read_image_file] on the bytes of the file, over the memory [m]. The
    result is [None] when C leaves a value indeterminate: the file is too
    short to hold the origin, or it ends in the middle of a word that
    [fread] was still to read. *)
Definition read_image_file (little_endian : bool) (file : list ascii)
  (m : Z -> Z) : option (Z -> Z) :=
  match fread_words little_endian 1 file with
  | ([raw], _) =>
      let origin := ntohs little_endian raw in
      let max_read := u16 (MEM_MAX - origin) in
      let p := origin in
      let (ws, partial) :=
        fread_words little_endian (Z.to_nat max_read) (skipn 2 file) in
      if partial then None
      else
        let read := List.length ws in
        Some (swap_words little_endian read (store_words m p ws) p)
  | _ => None
  end.

(** The files the machine can open, by path. *)
Definition files : Type := string -> option (list ascii).

(** [read_image]: the value returned, and the memory afterwards ([None]
    for indeterminate contents). *)
Definition read_image (little_endian : bool) (fs : files) (image_path : string)
  (m : option (Z -> Z)) : Z * option (Z -> Z) :=
  match fs image_path with
  | None => (0, m)
  | Some file =>
      (1, match m with
          | Some m0 => read_image_file little_endian file m0
          | None => None
          end)
  end.

(** ** The whole of [main] *)

(** How the process ends, or where it stands when the turns granted to the
    loop are used up. *)
Inductive ending : Type :=
| Exit (code : Z) (h : host)   (* [exit(code)] before the loop *)
| Loop (o : outcome)           (* the loop was entered *)
| Indeterminate.               (* the loop was entered on indeterminate memory *)

(** The [for] loop over the image paths: the path that failed to load, or
    the memory once all are loaded. *)
Fixpoint load_images (little_endian : bool) (fs : files) (paths : list string)
  (m : option (Z -> Z)) : string + option (Z -> Z) :=
  match paths with
  | [] => inr m
  | path :: rest =>
      let (ok, m') := read_image little_endian fs path m in
      if ok =? 0 then inl path
      else load_images little_endian fs rest m'
  end.

Definition usage : string :=
  String.append "VM [image-file1] ..." (String newline EmptyString).

Definition load_failure (path : string) : string :=
  String.append "failed to load image: "
                (String.append path (String newline EmptyString)).

(** [main] on the arguments [argv] (the program name first), for at most
    [turns] turns of the loop. *)
Definition main (little_endian char_signed : bool) (fs : files)
  (argv : list string) (h : host) (turns : nat) : ending :=
  if Z.of_nat (List.length argv) <? 2 then Exit 2 (put_string usage h)
  else
    match load_images little_endian fs (tl argv) (Some (fun _ => 0)) with
    | inl path => Exit 1 (put_string (load_failure path) h)
    | inr (Some image) => Loop (run char_signed turns (init image h))
    | inr None => Indeterminate
    end.

(** ** Vocabulary of the specification *)

(** The low [n] bits of [w] read as a two's-complement number. *)
Definition signed (n : Z) (w : Z) : Z :=
  let m := w mod 2 ^ n in
  if 2 ^ (n - 1) <=? m then m - 2 ^ n else m.

(** Number of bits set among the sixteen bits of a word. *)
Definition bits_set (w : Z) : nat :=
  List.length (filter (Z.testbit w) (map Z.of_nat (seq 0 16))).

(** The condition-flags register holds one of the three flags. *)
Definition flags_ok (s : state) : Prop :=
  reg s R_COND = FL_POS \/ reg s R_COND = FL_ZRO \/ reg s R_COND = FL_NEG.

(** The flag that classifies the word [v]. *)
Definition flag_of (v : Z) : Z :=
  if v =? 0 then FL_ZRO else if Z.testbit v 15 then FL_NEG else FL_POS.

(** The opcodes whose instruction defines a destination register. *)
Definition sets_flags (op : Z) : bool :=
  existsb (Z.eqb op) [OP_ADD; OP_AND; OP_NOT; OP_LD; OP_LDI; OP_LDR; OP_LEA].

(** The trap vectors that have a routine. *)
Definition trap_vectors : list Z :=
  [TRAP_GETC; TRAP_OUT; TRAP_PUTS; TRAP_IN; TRAP_PUTSP; TRAP_HALT].

(** The cells [a, a+1, ..., a+n-1] of a memory. *)
Fixpoint cells (m : Z -> Z) (a : Z) (n : nat) : list Z :=
  match n with
  | O => []
  | S n' => m a :: cells m (a + 1) n'
  end.

(** The two bytes of a word. *)
Definition low_byte (w : Z) : Z := w mod 256.
Definition high_byte (w : Z) : Z := Z.shiftr w 8 mod 256.

(** The characters of a string with one character per word. *)
Definition word_chars (ws : list Z) : list ascii :=
  map (fun w => char_of_int (low_byte w)) ws.

(** The characters of a string with two characters per word: the low byte
    of each word, then its high byte unless that is zero. *)
Definition packed_chars (ws : list Z) : list ascii :=
  flat_map (fun w =>
              char_of_int (low_byte w) ::
              (if high_byte w =? 0 then [] else [char_of_int (high_byte w)]))
           ws.

(** The terminal after the characters [cs] have been written. *)
Definition written (cs : list ascii) (h : host) : host :=
  mkHost (keys h) (closed h) (out h ++ cs) (buffered h) (bufsiz h).

(** ** Sample machines *)

(** A memory of zeros, as the global array is before any image is loaded. *)
Definition blank : Z -> Z := fun _ => 0.

(** The memory [m] after an image of origin [origin] and body [words] has
    been copied over it, for a body that fits between [origin] and the end
    of the array. *)
Definition load (origin : Z) (words : list Z) (m : Z -> Z) : Z -> Z :=
  fun a =>
    if (origin <=? a) && (a <? origin + Z.of_nat (List.length words))
    then nth (Z.to_nat (a - origin)) words 0
    else m a.

(** The machine started on the single image [prog], placed at the entry
    address, with the terminal [h]. *)
Definition boot (prog : list Z) (h : host) : state :=
  init (load PC_START prog blank) h.

(** A terminal on which nothing has been typed, one with an [a] waiting
    and one with an [a] and a [b] waiting; nothing has been read yet, and
    the stream has a buffer of 4096 bytes. *)
Definition quiet : host := mkHost [] false [] 0 4096.
Definition typed_a : host := mkHost ["a"%char] false [] 0 4096.

(** TRAP with the vector 0xFF, which has no routine, then ADD R0, R0, #5. *)
Definition prog_bad_trap : list Z := [0xF0FF; 0x1025].

(** LD R1, #1; JMP R1; .FILL 0xFE00: jumps to the keyboard-status
    address. *)
Definition prog_jump_kbsr : list Z := [0x2201; 0xC040; 0xFE00].

(** The reserved opcode 13 at the entry address. *)
Definition prog_reserved : list Z := [0xD000].

(** The machine after the two instructions of [prog_jump_kbsr], with an
    [a] waiting on the terminal: about to fetch from 0xFE00. *)
Definition at_kbsr : state :=
  state_of (run true 2 (boot prog_jump_kbsr typed_a)).

(** BRz #2 at the entry address: taken from the initial state, whose flags
    are ZERO. *)
Definition prog_branch : list Z := [0x0402].

(** LDI R0, #1; TRAP HALT; a pointer to the next word; the word 42. *)
Definition prog_ldi : list Z := [0xA001; 0xF025; 0x3003; 0x002A].

(** ADD R0, R0, #-1 (immediate field 0b11111), twice, and then
    AND R1, R1, #-1. *)
Definition prog_imm : list Z := [0x103F; 0x103F; 0x527F].

(** The machine of [prog_imm] after the first ADD: R0 holds 0xFFFF. *)
Definition at_second_add : state := state_of (run true 1 (boot prog_imm quiet)).

(** LD R0, #1; TRAP PUTS; .FILL 0xFDFF: prints the string at 0xFDFF. *)
Definition prog_puts : list Z := [0x2001; 0xF022; 0xFDFF].

(** The same with TRAP PUTSP. *)
Definition prog_putsp : list Z := [0x2001; 0xF024; 0xFDFF].

(** The words of "HI!", to be placed at 0xFDFF, so that the [I] lies at the
    keyboard-status address and the terminator at the keyboard-data
    address. *)
Definition str_hi : list Z := [72; 73; 33].

(** "HI!" with two characters per word, [H] in the low byte of the first
    word; placed at 0xFDFF, the [!] lies at the keyboard-status address. *)
Definition str_packed : list Z := [0x4948; 0x0021].

(** The machine about to execute the PUTS of [prog_puts], with the string
    in place and an [a] waiting on the terminal; and the same for PUTSP. *)
Definition at_puts : state :=
  state_of (run true 1
              (init (load PC_START prog_puts (load 0xFDFF str_hi blank))
                    typed_a)).

Definition at_putsp : state :=
  state_of (run true 1
              (init (load PC_START prog_putsp (load 0xFDFF str_packed blank))
                    typed_a)).

(** ** Vocabulary for the loader and the word invariant *)

(** The bytes of a file read two by two as big-endian words; a last single
    byte is left out. *)
Fixpoint be_words (bs : list ascii) : list Z :=
  match bs with
  | hi :: lo :: rest => (256 * byte_val hi + byte_val lo) :: be_words rest
  | _ => []
  end.

(** The two bytes of a word, high byte first. *)
Definition be_bytes (w : Z) : list ascii :=
  [ascii_of_N (Z.to_N (w / 256 mod 256)); ascii_of_N (Z.to_N (w mod 256))].

(** The image file of origin [origin] and body [words]. *)
Definition encode_image (origin : Z) (words : list Z) : list ascii :=
  be_bytes origin ++ flat_map be_bytes words.

(** A well-formed image: an origin other than 0 and a body of 16-bit
    words that fits between the origin and the end of memory. *)
Definition image_ok (img : Z * list Z) : Prop :=
  0 < fst img < MEM_MAX /\
  Forall (fun w => 0 <= w < MEM_MAX) (snd img) /\
  fst img + Z.of_nat (List.length (snd img)) <= MEM_MAX.

(** Images copied one after the other over a memory, the first one first. *)
Definition overlay (imgs : list (Z * list Z)) (m : Z -> Z) : Z -> Z :=
  fold_left (fun m img => load (fst img) (snd img) m) imgs m.

(** The opcodes that write memory, and those that set the PC. *)
Definition stores (op : Z) : bool := existsb (Z.eqb op) [OP_ST; OP_STI; OP_STR].
Definition jumps (op : Z) : bool := existsb (Z.eqb op) [OP_BR; OP_JMP; OP_JSR].

(** More observers of an outcome. *)
Definition is_halted (o : outcome) : bool :=
  match o with Halted _ => true | _ => false end.

Definition is_blocked (o : outcome) : bool :=
  match o with Blocked _ => true | _ => false end.

Definition is_undefined (o : outcome) : bool :=
  match o with Undefined _ => true | _ => false end.

(** The line that TRAP HALT prints, and the prompt of TRAP IN. *)
Definition halt_line : list ascii :=
  list_ascii_of_string (String.append "HALT" (String newline EmptyString)).

Definition prompt : list ascii := list_ascii_of_string "Enter a character: ".

(** A memory, or a register file, that holds 16-bit words only. *)
Definition words_only (f : Z -> Z) : Prop := forall a, 0 <= f a < MEM_MAX.

Definition wf (s : state) : Prop := words_only (mem s) /\ words_only (reg s).

(** An image file of origin 0x3000 holding ADD R0, R0, #5 and TRAP HALT. *)
Definition file_add_halt : list ascii :=
  ["048"; "000"; "016"; "037"; "240"; "037"]%char.

(** The memory after that file has been loaded over a blank memory. *)
Definition image_add_halt : Z -> Z :=
  match read_image_file true file_add_halt blank with
  | Some m => m
  | None => blank
  end.

(** A file system with the image above under the path [add.obj], and a
    second image under [patch.obj] that replaces its first word by
    ADD R0, R0, #7. *)
Definition disk : files :=
  fun path =>
    if String.eqb path "add.obj" then Some file_add_halt
    else if String.eqb path "patch.obj" then Some (encode_image 0x3000 [0x1027])
    else None.

(** JSRR R7 at the entry address. *)
Definition prog_jsrr_r7 : list Z := [0x41C0].

(** JSR #1 (to 0x3002); TRAP HALT; JMP R7, the return. *)
Definition prog_call : list Z := [0x4801; 0xF025; 0xC1C0].

(** The machine of [prog_call] inside the subroutine, about to return. *)
Definition at_return : state := state_of (run true 1 (boot prog_call quiet)).

(** NOT R1, R0 at the entry address. *)
Definition prog_not : list Z := [0x923F].

(** A machine that has jumped to the last cell of memory, 0xFFFF, where
    ADD R0, R0, #5 lies. *)
Definition at_top : state :=
  state_of (run true 2
              (init (load PC_START [0x2201; 0xC040; 0xFFFF]
                          (load 0xFFFF [0x1025] blank))
                    quiet)).

(** AND R1, R1, #0; ADD R0, R0, #7; STR R0, R1, #0; LDR R2, R1, #0: stores
    7 at address 0 and loads it back. *)
Definition prog_store_load : list Z := [0x5260; 0x1027; 0x7040; 0x6440].

(** The machine of [prog_store_load] about to execute the STR. *)
Definition at_store : state := state_of (run true 2 (boot prog_store_load quiet)).

(** TRAP HALT followed by ADD R0, R0, #5, which is never reached. *)
Definition prog_halt : list Z := [0xF025; 0x1025].

(** TRAP GETC; TRAP IN; TRAP OUT. *)
Definition prog_io : list Z := [0xF020; 0xF023; 0xF021].

(** A terminal with the character of code 233 waiting, one at end of
    file, and one on which nothing will ever be typed. *)
Definition typed_233 : host := mkHost ["233"%char] false [] 0 4096.
Definition at_eof : host := mkHost [] true [] 0 4096.

(** LD R0, #1; TRAP PUTS; .FILL 0xFFFF, with a non-zero word in the last
    cell of memory: the string has no terminator. *)
Definition at_unterminated : state :=
  state_of (run true 1
              (init (load PC_START [0x2001; 0xF022; 0xFFFF]
                          (load 0xFFFF [65] blank))
                    quiet)).

(** BRnzp #2 and, for comparison, a memory of zeros. *)
Definition prog_brnzp : list Z := [0x0E02].

(** The machine of [prog_io] after its TRAP IN has read the character
    of code 233 on a platform with signed [char], an [a] having been read
    by the GETC before: about to execute TRAP OUT. *)
Definition at_out : state :=
  state_of (run true 2 (boot prog_io (mkHost ["a"; "233"]%char false [] 0 4096))).

(** ** Arithmetic of words *)

Lemma u16_range (x : Z) : 0 <= u16 x < MEM_MAX.
Proof. unfold u16. apply Z.mod_pos_bound. reflexivity. Qed.

Lemma u16_small (x : Z) : 0 <= x < MEM_MAX -> u16 x = x.
Proof. intro H. unfold u16. now apply Z.mod_small. Qed.

Lemma land_7 (a : Z) : Z.land a 7 = a mod 8.
Proof. apply (Z.land_ones a 3). lia. Qed.

Lemma land_1 (a : Z) : Z.land a 1 = a mod 2.
Proof. apply (Z.land_ones a 1). lia. Qed.

Lemma DR_range (instr : Z) : 0 <= DR instr < 8.
Proof. unfold DR. rewrite land_7. apply Z.mod_pos_bound. lia. Qed.

Lemma SR1_range (instr : Z) : 0 <= SR1 instr < 8.
Proof. unfold SR1. rewrite land_7. apply Z.mod_pos_bound. lia. Qed.

Lemma SR2_range (instr : Z) : 0 <= SR2 instr < 8.
Proof. unfold SR2. rewrite land_7. apply Z.mod_pos_bound. lia. Qed.

Lemma upd_same (f : Z -> Z) (k v : Z) : upd f k v k = v.
Proof. unfold upd. now rewrite Z.eqb_refl. Qed.

Lemma upd_other (f : Z -> Z) (k v a : Z) : a <> k -> upd f k v a = f a.
Proof. intro H. unfold upd. apply Z.eqb_neq in H. now rewrite H. Qed.

(** The test [reg[r] >> 15] of [update_flags] looks at bit 15 of a word. *)
Lemma shiftr15_testbit (v : Z) :
  0 <= v < MEM_MAX -> negb (Z.shiftr v 15 =? 0) = Z.testbit v 15.
Proof.
  intros [Hlo Hhi]. change MEM_MAX with 65536 in Hhi.
  rewrite <- (Z.add_0_l 15) at 2.
  rewrite <- (Z.shiftr_spec v 15 0), Z.bit0_odd by lia.
  rewrite Z.shiftr_div_pow2 by lia. change (2 ^ 15) with 32768.
  assert (Hq : v / 32768 = 0 \/ v / 32768 = 1).
  { assert (0 <= v / 32768 < 2); [| lia].
    split; [apply Z.div_pos; lia | apply Z.div_lt_upper_bound; lia]. }
  destruct Hq as [-> | ->]; reflexivity.
Qed.

Lemma update_flags_cond (r : Z) (s : state) :
  0 <= reg s r < MEM_MAX ->
  reg (update_flags r s) R_COND = flag_of (reg s r).
Proof.
  intro Hv. unfold update_flags, flag_of.
  rewrite (shiftr15_testbit _ Hv).
  destruct (reg s r =? 0); [| destruct (Z.testbit (reg s r) 15)];
    simpl; apply upd_same.
Qed.

Lemma update_flags_ok (r : Z) (s : state) : flags_ok (update_flags r s).
Proof.
  unfold update_flags, flags_ok.
  destruct (reg s r =? 0); [| destruct (negb _)];
    simpl; rewrite upd_same; auto.
Qed.

Lemma update_flags_reg (r k : Z) (s : state) :
  k <> R_COND -> reg (update_flags r s) k = reg s k.
Proof.
  intro H. unfold update_flags.
  destruct (reg s r =? 0); [| destruct (negb _)];
    simpl; now apply upd_other.
Qed.

Lemma update_flags_mem (r : Z) (s : state) : mem (update_flags r s) = mem s.
Proof.
  unfold update_flags.
  destruct (reg s r =? 0); [| destruct (negb _)]; reflexivity.
Qed.

Lemma update_flags_io (r : Z) (s : state) : io (update_flags r s) = io s.
Proof.
  unfold update_flags.
  destruct (reg s r =? 0); [| destruct (negb _)]; reflexivity.
Qed.

(** ** C3: update_flags *)

(** C3. For every 16-bit word [v] stored into the destination register [r],
    [update_flags r] leaves ZERO in the condition-flags register exactly
    when [v = 0], NEGATIVE exactly when bit 15 of [v] is set, POSITIVE
    exactly in the remaining case, and the flags value has exactly one bit
    set. *)
Theorem update_flags_classifies (s : state) (r v : Z) :
  0 <= v < MEM_MAX ->
  let cond := reg (update_flags r (set_reg s r v)) R_COND in
  (cond = FL_ZRO <-> v = 0) /\
  (cond = FL_NEG <-> Z.testbit v 15 = true) /\
  (cond = FL_POS <-> v <> 0 /\ Z.testbit v 15 = false) /\
  bits_set cond = 1%nat.
Proof.
  intros Hv cond.
  assert (Hc : cond = flag_of v).
  { unfold cond. rewrite update_flags_cond; simpl; rewrite upd_same; auto. }
  rewrite Hc. unfold flag_of.
  change FL_ZRO with 2. change FL_NEG with 4. change FL_POS with 1.
  destruct (Z.eqb_spec v 0) as [-> | Hnz].
  - repeat split; try reflexivity; try discriminate;
      intuition (try lia; try discriminate).
  - destruct (Z.testbit v 15) eqn:Hb;
      repeat split; try reflexivity; try discriminate;
      intuition (try lia; try discriminate).
Qed.

Lemma update_flags_classifies_witness :
  0 <= 0x8001 < MEM_MAX /\
  reg (update_flags R_R3 (set_reg (boot [] quiet) R_R3 0x8001))
      R_COND = FL_NEG.
Proof.
  assert (H : 0 <= 0x8001 < MEM_MAX) by (change MEM_MAX with 65536; lia).
  split; [exact H |].
  destruct (update_flags_classifies
              (boot [] quiet) R_R3 0x8001 H)
    as (_ & Hneg & _).
  apply Hneg. reflexivity.
Defined.

(** ** C4: sign_extend *)

Lemma testbit_high (v n i : Z) :
  0 <= v < 2 ^ n -> n <= i -> Z.testbit v i = false.
Proof.
  intros Hv Hi.
  destruct (Z.lt_ge_cases n 0) as [Hn | Hn].
  - rewrite Z.pow_neg_r in Hv by assumption. lia.
  - rewrite <- (Z.mod_small v (2 ^ n)) by assumption.
    apply Z.mod_pow2_bits_high. lia.
Qed.

(** Or-ing a field with a mask that lies above it adds the two. *)
Lemma lor_shiftl_low (v k n : Z) :
  0 <= n -> 0 <= v < 2 ^ n -> Z.lor v (Z.shiftl k n) = v + k * 2 ^ n.
Proof.
  intros Hn Hv.
  assert (Hdisj : Z.land v (Z.shiftl k n) = 0).
  { apply Z.bits_inj'. intros i Hi.
    rewrite Z.land_spec, Z.bits_0.
    destruct (Z.lt_ge_cases i n) as [Hlt | Hge].
    - rewrite Z.shiftl_spec_low by assumption. apply andb_false_r.
    - rewrite (testbit_high v n i) by assumption. reflexivity. }
  rewrite <- Z.lxor_lor, <- Z.add_nocarry_lxor by assumption.
  now rewrite Z.shiftl_mul_pow2.
Qed.

(** The sign test of [sign_extend], as arithmetic. *)
Lemma sign_test (x k : Z) :
  0 <= k -> Z.land (Z.shiftr x k) 1 = (x / 2 ^ k) mod 2.
Proof. intro Hk. now rewrite land_1, Z.shiftr_div_pow2. Qed.

Lemma sign_extend_range (v n : Z) :
  0 <= v < MEM_MAX -> 0 <= sign_extend v n < MEM_MAX.
Proof.
  intro Hv. unfold sign_extend.
  destruct (negb _); [apply u16_range | exact Hv].
Qed.

(** At width 16 there is nothing left to extend. *)
Lemma sign_extend_16 (w : Z) : 0 <= w < MEM_MAX -> sign_extend w 16 = w.
Proof.
  intro Hw. unfold sign_extend.
  destruct (negb _); [| reflexivity].
  rewrite lor_shiftl_low by (assumption || lia).
  unfold u16. rewrite Z.mod_add by discriminate.
  now apply Z.mod_small.
Qed.

(** On a field of [n] bits, [sign_extend] keeps the two's-complement value. *)
Lemma sign_extend_value (v n : Z) :
  In n [5; 6; 9; 11] -> 0 <= v < 2 ^ n ->
  signed 16 (sign_extend v n) = signed n v.
Proof.
  intros Hn Hv.
  assert (Hlor : Z.lor v (Z.shiftl 0xFFFF n) = v + 0xFFFF * 2 ^ n).
  { apply lor_shiftl_low; [| assumption].
    simpl in Hn. lia. }
  unfold sign_extend, signed, u16. rewrite Hlor. clear Hlor.
  rewrite sign_test by (simpl in Hn; lia).
  change MEM_MAX with 65536.
  simpl in Hn.
  destruct Hn as [<- | [<- | [<- | [<- | []]]]];
    cbn [Z.sub Z.add Z.opp Z.pos_sub Z.succ_double Z.pred_double
         Pos.pred_double Z.pow Z.pow_pos Pos.iter Z.mul Pos.mul Pos.add
         Pos.succ] in *;
    repeat match goal with
           | |- context [?a =? ?b] => destruct (Z.eqb_spec a b)
           | |- context [?a <=? ?b] => destruct (Z.leb_spec a b)
           end;
    cbn [negb] in *;
    Z.div_mod_to_equations; lia.
Qed.

(** C4, as the code has it. For every bit count [n] among 5, 6, 9 and 11
    and every 16-bit [v], [sign_extend v n] is a 16-bit word and a fixed
    point of sign extension at width 16; when moreover the bits of [v]
    above the low [n] are zero (as at every call, where the field is masked
    first), the 16-bit result read as two's complement is the low [n] bits
    of [v] read as two's complement. *)
Theorem sign_extend_field (v n : Z) :
  0 <= v < MEM_MAX -> In n [5; 6; 9; 11] ->
  0 <= sign_extend v n < MEM_MAX /\
  sign_extend (sign_extend v n) 16 = sign_extend v n /\
  (v < 2 ^ n -> signed 16 (sign_extend v n) = signed n v).
Proof.
  intros Hv Hn. split; [| split].
  - now apply sign_extend_range.
  - apply sign_extend_16. now apply sign_extend_range.
  - intro Hlt. apply sign_extend_value; [assumption | lia].
Qed.

Lemma sign_extend_field_witness :
  0 <= 0x1F < MEM_MAX /\ In 5 [5; 6; 9; 11] /\
  sign_extend 0x1F 5 = 0xFFFF /\ signed 16 (sign_extend 0x1F 5) = -1.
Proof.
  assert (Hv : 0 <= 0x1F < MEM_MAX) by (change MEM_MAX with 65536; lia).
  assert (Hn : In 5 [5; 6; 9; 11]) by (simpl; auto).
  split; [exact Hv |]. split; [exact Hn |]. split; [reflexivity |].
  destruct (sign_extend_field 0x1F 5 Hv Hn) as (_ & _ & Hval).
  rewrite Hval; [reflexivity | reflexivity].
Defined.

(** C4, as written: on a 16-bit input with a bit set above the field the
    value is not kept. [sign_extend 32 5] is 32, while the low five bits of
    32 are zero. *)
Lemma sign_extend_unmasked_input :
  0 <= 32 < MEM_MAX /\ In 5 [5; 6; 9; 11] /\
  sign_extend 32 5 = 32 /\
  signed 5 32 = 0 /\
  signed 16 (sign_extend 32 5) <> signed 5 32.
Proof.
  split; [change MEM_MAX with 65536; lia |].
  split; [simpl; auto |].
  split; [reflexivity |]. split; [reflexivity |].
  vm_compute. discriminate.
Qed.

(** ** C9: the memory read contract *)

Lemma char_code_range (c : ascii) : 0 <= Z.of_N (N_of_ascii c) < 256.
Proof. pose proof (N_ascii_bounded c). lia. Qed.

Lemma mem_read_reg (a : Z) (s : state) : reg (snd (mem_read a s)) = reg s.
Proof.
  unfold mem_read.
  destruct (a =? MR_KBSR); [| reflexivity].
  destruct (check_key (io s)); [| reflexivity].
  simpl. destruct (getchar (io s)); reflexivity.
Qed.

Lemma mem_read_passive (a : Z) (s : state) :
  a <> MR_KBSR -> mem_read a s = (mem s a, s).
Proof.
  intro Ha. unfold mem_read.
  apply Z.eqb_neq in Ha. now rewrite Ha.
Qed.



(** ** Fetch and dispatch *)

Lemma step_fetch_execute (sc : bool) (s : state) :
  step sc s = execute sc (fst (fetch s)) (snd (fetch s)).
Proof. unfold step. destruct (fetch s). reflexivity. Qed.

Lemma fetch_reg (s : state) :
  reg (snd (fetch s)) = upd (reg s) R_PC (u16 (reg s R_PC + 1)).
Proof. unfold fetch. now rewrite mem_read_reg. Qed.

Lemma fetch_reg_other (s : state) (r : Z) :
  r <> R_PC -> reg (snd (fetch s)) r = reg s r.
Proof. intro H. rewrite fetch_reg. now apply upd_other. Qed.

Lemma fetch_pc (s : state) : reg (snd (fetch s)) R_PC = u16 (reg s R_PC + 1).
Proof. rewrite fetch_reg. apply upd_same. Qed.

Lemma fetch_passive (s : state) :
  reg s R_PC <> MR_KBSR ->
  fetch s = (mem s (reg s R_PC), set_reg s R_PC (u16 (reg s R_PC + 1))).
Proof. intro H. unfold fetch. now rewrite mem_read_passive. Qed.

(** A fetch from the keyboard-status address yields the status word, whose
    opcode is BR or RTI. *)
Lemma fetch_kbsr_opcode (s : state) :
  reg s R_PC = MR_KBSR ->
  Z.shiftr (fst (fetch s)) 12 = OP_BR \/ Z.shiftr (fst (fetch s)) 12 = OP_RTI.
Proof.
  intro Hpc. unfold fetch, mem_read. rewrite Hpc, Z.eqb_refl.
  cbv zeta. destruct (check_key _).
  - right. destruct (getchar _). reflexivity.
  - left. reflexivity.
Qed.

(** Every other instruction was fetched from passive storage. *)
Lemma fetch_of_opcode (s : state) :
  Z.shiftr (fst (fetch s)) 12 <> OP_BR ->
  Z.shiftr (fst (fetch s)) 12 <> OP_RTI ->
  fetch s = (mem s (reg s R_PC), set_reg s R_PC (u16 (reg s R_PC + 1))).
Proof.
  intros Hbr Hrti. apply fetch_passive. intro Hpc.
  destruct (fetch_kbsr_opcode s Hpc); contradiction.
Qed.

(** Reduce the dispatch of [execute] once the opcode is known. *)
Ltac dispatch H :=
  unfold execute; rewrite H; cbv beta iota delta
    [OP_BR OP_ADD OP_LD OP_ST OP_JSR OP_AND OP_LDR OP_STR OP_RTI OP_NOT
     OP_LDI OP_STI OP_JMP OP_RES OP_LEA OP_TRAP].

(** Split on the value of a number that a [switch] inspects. *)
Ltac switch_on p :=
  repeat match goal with
         | |- context [match p with _ => _ end] => destruct p; cbv beta iota
         | q : positive |- context [match ?x with _ => _ end] =>
             constr_eq x q; destruct q; cbv beta iota
         end.

(** What a bounded run reaches from a reachable state is reachable. *)
Lemma run_reachable (sc : bool) (n : nat) (s : state) :
  reachable sc s -> is_running (run sc n s) = true ->
  reachable sc (state_of (run sc n s)).
Proof.
  revert s. induction n as [| n IH]; intros s Hs Hrun; simpl in *.
  - assumption.
  - destruct (step sc s) as [s1 | s1 | s1 | s1 | s1] eqn:Hstep;
      try discriminate.
    apply (IH s1); [| assumption].
    now apply (reach_step sc s s1).
Qed.

(** ** C2: undefined opcodes *)

(** C2, as the code has it. When the fetched instruction has opcode RTI (8)
    or the reserved opcode (13), the machine aborts in the state fetch left:
    no general register and not the condition flags have changed, the PC
    has been incremented; and when the instruction was fetched from an
    address other than the keyboard-status address, memory and terminal are
    untouched too, so that the PC increment is the only change. *)
Theorem undefined_opcode_aborts (sc : bool) (s : state) :
  Z.shiftr (fst (fetch s)) 12 = OP_RTI \/ Z.shiftr (fst (fetch s)) 12 = OP_RES ->
  step sc s = Aborted (snd (fetch s)) /\
  (forall r, r <> R_PC -> reg (snd (fetch s)) r = reg s r) /\
  reg (snd (fetch s)) R_PC = u16 (reg s R_PC + 1) /\
  (reg s R_PC <> MR_KBSR ->
   snd (fetch s) = set_reg s R_PC (u16 (reg s R_PC + 1))).
Proof.
  intro Hop. split; [| split; [| split]].
  - rewrite step_fetch_execute.
    destruct Hop as [Hop | Hop]; dispatch Hop; reflexivity.
  - intros r Hr. now apply fetch_reg_other.
  - apply fetch_pc.
  - intro Hpc. now rewrite fetch_passive.
Qed.

Lemma undefined_opcode_aborts_witness :
  Z.shiftr (fst (fetch (boot prog_reserved quiet))) 12 = OP_RES /\
  step true (boot prog_reserved quiet) =
    Aborted (set_reg (boot prog_reserved quiet) R_PC 0x3001).
Proof.
  split; [reflexivity |].
  destruct (undefined_opcode_aborts true (boot prog_reserved quiet))
    as (Hstep & _ & _ & Hsame).
  - right. reflexivity.
  - rewrite Hstep, Hsame; [reflexivity | discriminate].
Defined.

(** C2, as written: a fetch from the keyboard-status address polls the
    keyboard. With an [a] waiting, the machine of [prog_jump_kbsr] fetches
    the status word 0x8000, whose opcode is RTI, and aborts; by then the
    fetch has written the status and data registers and taken the
    character. *)
Lemma undefined_opcode_after_poll :
  reachable true at_kbsr /\
  reg at_kbsr R_PC = MR_KBSR /\
  Z.shiftr (fst (fetch at_kbsr)) 12 = OP_RTI /\
  is_aborted (step true at_kbsr) = true /\
  mem at_kbsr MR_KBSR = 0 /\
  mem (state_of (step true at_kbsr)) MR_KBSR = 0x8000 /\
  mem at_kbsr MR_KBDR = 0 /\
  mem (state_of (step true at_kbsr)) MR_KBDR = 97 /\
  keys (io at_kbsr) = ["a"%char] /\
  keys (io (state_of (step true at_kbsr))) = [].
Proof.
  split.
  - apply (run_reachable true 2 (boot prog_jump_kbsr typed_a));
      [apply reach_init | vm_compute; reflexivity].
  - repeat split; vm_compute; reflexivity.
Qed.

(** ** C1: trap vectors without a routine *)

Lemma execute_trap (sc : bool) (instr : Z) (s : state) :
  Z.shiftr instr 12 = OP_TRAP -> execute sc instr s = op_trap sc instr s.
Proof. intro H. dispatch H. reflexivity. Qed.

(** The inner [switch] of TRAP has no [default]: a vector outside the six
    with a routine only leaves the return address in R7. *)
Lemma op_trap_no_routine (sc : bool) (instr : Z) (s : state) :
  ~ In (Z.land instr 0xFF) trap_vectors ->
  op_trap sc instr s = Running (set_reg s R_R7 (reg s R_PC)).
Proof.
  intro Hout. unfold op_trap.
  destruct (Z.land instr 255) as [| p | p]; cbv beta iota zeta;
    try reflexivity.
  switch_on p; try reflexivity; exfalso; apply Hout; cbv; tauto.
Qed.

(** C1, as the code has it. A TRAP whose vector is none of 0x20 .. 0x25
    stores the incremented PC in R7 and does nothing else: no register
    other than PC and R7, no memory word and nothing on the terminal
    changes, no error is raised, and the loop goes on with the next
    instruction. *)
Theorem unknown_trap_is_skipped (sc : bool) (s : state) :
  let instr := fst (fetch s) in
  let pc := u16 (reg s R_PC + 1) in
  Z.shiftr instr 12 = OP_TRAP ->
  ~ In (Z.land instr 0xFF) trap_vectors ->
  step sc s = Running (set_reg (set_reg s R_PC pc) R_R7 pc).
Proof.
  intros instr pc Hop Hvec.
  rewrite step_fetch_execute. fold instr.
  rewrite fetch_of_opcode by (fold instr; rewrite Hop; discriminate).
  cbn [snd]. rewrite execute_trap by assumption.
  now rewrite op_trap_no_routine.
Qed.

Lemma unknown_trap_is_skipped_witness :
  Z.shiftr (fst (fetch (boot prog_bad_trap quiet))) 12 = OP_TRAP /\
  ~ In (Z.land (fst (fetch (boot prog_bad_trap quiet))) 0xFF) trap_vectors /\
  step true (boot prog_bad_trap quiet) =
    Running (set_reg (set_reg (boot prog_bad_trap quiet) R_PC 0x3001) R_R7 0x3001).
Proof.
  assert (Hop : Z.shiftr (fst (fetch (boot prog_bad_trap quiet))) 12 = OP_TRAP)
    by (vm_compute; reflexivity).
  assert (Hvec : ~ In (Z.land (fst (fetch (boot prog_bad_trap quiet))) 0xFF)
                      trap_vectors).
  { vm_compute. intros [H | [H | [H | [H | [H | [H | []]]]]]]; discriminate H. }
  split; [exact Hop |]. split; [exact Hvec |].
  exact (unknown_trap_is_skipped true (boot prog_bad_trap quiet) Hop Hvec).
Defined.

(** C1, as written: the machine of [prog_bad_trap] executes TRAP 0xFF at
    0x3000 without any error and goes on to the ADD at 0x3001, which leaves
    5 in R0. *)
Lemma unknown_trap_runs_on :
  fst (fetch (boot prog_bad_trap quiet)) = 0xF0FF /\
  Z.shiftr 0xF0FF 12 = OP_TRAP /\
  ~ In (Z.land 0xF0FF 0xFF) trap_vectors /\
  is_aborted (step true (boot prog_bad_trap quiet)) = false /\
  is_running (step true (boot prog_bad_trap quiet)) = true /\
  reg (state_of (step true (boot prog_bad_trap quiet))) R_PC
    = 0x3001 /\
  is_running (run true 2 (boot prog_bad_trap quiet)) = true /\
  reg (state_of (run true 2 (boot prog_bad_trap quiet))) R_PC
    = 0x3002 /\
  reg (state_of (run true 2 (boot prog_bad_trap quiet))) R_R0
    = 5.
Proof.
  split; [vm_compute; reflexivity |].
  split; [reflexivity |].
  split.
  { vm_compute. intros [H | [H | [H | [H | [H | [H | []]]]]]]; discriminate H. }
  repeat split; vm_compute; reflexivity.
Qed.

(** ** C8: BR *)

Lemma set_reg_cond (s : state) (r v : Z) :
  r <> R_COND -> reg (set_reg s r v) R_COND = reg s R_COND.
Proof. intro H. simpl. apply upd_other. congruence. Qed.

(** C8. For a BR instruction, with PC the program counter after the fetch
    increment: when the condition mask and the flags have a bit in common
    the program counter becomes PC plus the sign-extended 9-bit offset
    (modulo 2^16); otherwise the state is the one fetch left, the program
    counter still pointing at the next instruction. The condition flags are
    the same before and after in both cases. *)
Theorem br_semantics (sc : bool) (s : state) :
  Z.shiftr (fst (fetch s)) 12 = OP_BR ->
  let instr := fst (fetch s) in
  let s1 := snd (fetch s) in
  let mask := Z.land (Z.shiftr instr 9) 0x7 in
  let pc := u16 (reg s R_PC + 1) in
  reg s1 R_PC = pc /\
  (Z.land mask (reg s R_COND) <> 0 ->
   step sc s =
     Running (set_reg s1 R_PC (u16 (pc + sign_extend (Z.land instr 0x1FF) 9)))) /\
  (Z.land mask (reg s R_COND) = 0 -> step sc s = Running s1) /\
  reg (state_of (step sc s)) R_COND = reg s R_COND.
Proof.
  intros Hop instr s1 mask pc.
  assert (Hpc : reg s1 R_PC = pc) by apply fetch_pc.
  assert (Hcond : reg s1 R_COND = reg s R_COND)
    by (apply fetch_reg_other; discriminate).
  assert (Hstep : step sc s = op_br instr s1).
  { rewrite step_fetch_execute. dispatch Hop. reflexivity. }
  rewrite Hstep. unfold op_br. fold mask. rewrite Hcond, Hpc.
  split; [reflexivity |].
  destruct (Z.eqb_spec (Z.land mask (reg s R_COND)) 0) as [Hz | Hnz]; simpl.
  - split; [intro; contradiction |]. split; [reflexivity | exact Hcond].
  - split; [reflexivity |]. split; [intro; contradiction |].
    rewrite upd_other by discriminate. exact Hcond.
Qed.

Lemma br_semantics_witness :
  Z.shiftr (fst (fetch (boot prog_branch quiet))) 12 = OP_BR /\
  reg (state_of (step true (boot prog_branch quiet))) R_PC = 0x3003 /\
  reg (state_of (step true (boot prog_branch quiet))) R_COND = FL_ZRO.
Proof.
  assert (Hop : Z.shiftr (fst (fetch (boot prog_branch quiet))) 12
                = OP_BR) by (vm_compute; reflexivity).
  split; [exact Hop |].
  destruct (br_semantics true (boot prog_branch quiet) Hop)
    as (_ & Htaken & _ & Hflags).
  split.
  - rewrite Htaken; [vm_compute; reflexivity | vm_compute; discriminate].
  - rewrite Hflags. reflexivity.
Defined.

(** ** C6: immediate operands of ADD and AND *)

(** The bitwise AND of a word with anything is a word. *)
Lemma land_u16 (a b : Z) : 0 <= a < MEM_MAX -> u16 (Z.land a b) = Z.land a b.
Proof.
  intro Ha. unfold u16. change MEM_MAX with (2 ^ 16) in *.
  apply Z.bits_inj'. intros i Hi.
  destruct (Z.lt_ge_cases i 16) as [Hlt | Hge].
  - now rewrite Z.mod_pow2_bits_low.
  - rewrite Z.mod_pow2_bits_high by lia.
    rewrite Z.land_spec, (testbit_high a 16 i) by assumption.
    reflexivity.
Qed.

Lemma field_range (instr k : Z) :
  0 <= k -> 0 <= Z.land instr (Z.ones k) < 2 ^ k.
Proof.
  intro Hk. rewrite Z.land_ones by assumption.
  apply Z.mod_pos_bound. now apply Z.pow_pos_nonneg.
Qed.

(** C6. For an ADD or AND instruction in immediate mode, fetched from the
    machine [s]: the second operand is the 5-bit field sign-extended to 16
    bits, so that it stands for the same two's-complement number as the
    field and the field 0b11111 contributes 0xFFFF, that is -1, not 31. ADD
    leaves the sum modulo 2^16 in the destination register, in immediate
    and in register mode alike, AND the bitwise AND; the instruction ends
    normally whatever the operands. *)
Theorem immediate_is_sign_extended (sc : bool) (s : state) :
  let instr := fst (fetch s) in
  let s1 := set_reg s R_PC (u16 (reg s R_PC + 1)) in
  let imm5 := sign_extend (Z.land instr 0x1F) 5 in
  let a := reg s (SR1 instr) in
  let b := reg s (SR2 instr) in
  Z.shiftr instr 12 = OP_ADD \/ Z.shiftr instr 12 = OP_AND ->
  (imm_flag instr = 1 -> Z.shiftr instr 12 = OP_ADD ->
   step sc s =
     Running (update_flags (DR instr)
                (set_reg s1 (DR instr) ((a + imm5) mod 2 ^ 16)))) /\
  (imm_flag instr = 1 -> Z.shiftr instr 12 = OP_AND ->
   step sc s =
     Running (update_flags (DR instr)
                (set_reg s1 (DR instr) (u16 (Z.land a imm5)))) /\
   (0 <= a < MEM_MAX -> u16 (Z.land a imm5) = Z.land a imm5)) /\
  (imm_flag instr = 0 -> Z.shiftr instr 12 = OP_ADD ->
   step sc s =
     Running (update_flags (DR instr)
                (set_reg s1 (DR instr) ((a + b) mod 2 ^ 16)))) /\
  signed 16 imm5 = signed 5 (Z.land instr 0x1F) /\
  (Z.land instr 0x1F = 0x1F -> imm5 = 0xFFFF /\ signed 16 imm5 = -1).
Proof.
  intros instr s1 imm5 a b Hop.
  assert (Ha : reg s1 (SR1 instr) = a).
  { unfold s1, a. simpl. apply upd_other.
    pose proof (SR1_range instr). unfold R_PC. lia. }
  assert (Hb : reg s1 (SR2 instr) = b).
  { unfold s1, b. simpl. apply upd_other.
    pose proof (SR2_range instr). unfold R_PC. lia. }
  assert (Hstep : step sc s = execute sc instr s1).
  { rewrite step_fetch_execute. fold instr.
    now rewrite fetch_of_opcode
      by (fold instr; destruct Hop as [-> | ->]; discriminate). }
  rewrite Hstep. clear Hop Hstep.
  split; [| split; [| split; [| split]]].
  - intros Himm Hop. dispatch Hop. unfold op_add.
    rewrite Himm. cbn [Z.eqb negb]. cbv zeta. fold imm5. now rewrite Ha.
  - intros Himm Hop. split.
    + dispatch Hop. unfold op_and.
      rewrite Himm. cbn [Z.eqb negb]. cbv zeta. fold imm5. now rewrite Ha.
    + intro Hr. now apply land_u16.
  - intros Himm Hop. dispatch Hop. unfold op_add.
    rewrite Himm. cbn [Z.eqb negb]. cbv zeta. now rewrite Ha, Hb.
  - apply sign_extend_value; [simpl; auto |].
    apply (field_range instr 5). lia.
  - intro Hones. unfold imm5. rewrite Hones. split; reflexivity.
Qed.

Lemma immediate_is_sign_extended_witness :
  reg at_second_add R_R0 = 0xFFFF /\
  Z.shiftr (fst (fetch at_second_add)) 12 = OP_ADD /\
  imm_flag (fst (fetch at_second_add)) = 1 /\
  Z.land (fst (fetch at_second_add)) 0x1F = 0x1F /\
  reg (state_of (step true at_second_add)) R_R0 = 0xFFFE.
Proof.
  assert (Hop : Z.shiftr (fst (fetch at_second_add)) 12 = OP_ADD)
    by (vm_compute; reflexivity).
  assert (Hi : imm_flag (fst (fetch at_second_add)) = 1)
    by (vm_compute; reflexivity).
  split; [vm_compute; reflexivity |].
  split; [exact Hop |]. split; [exact Hi |].
  split; [vm_compute; reflexivity |].
  destruct (immediate_is_sign_extended true at_second_add (or_introl Hop))
    as (Hadd & _).
  rewrite (Hadd Hi Hop). vm_compute. reflexivity.
Defined.

(** ** C7: LDI *)

Lemma op_ld_eq (instr : Z) (s : state) :
  let a := u16 (reg s R_PC + sign_extend (Z.land instr 0x1FF) 9) in
  op_ld instr s =
    Running (update_flags (DR instr)
               (set_reg (snd (mem_read a s)) (DR instr) (fst (mem_read a s)))).
Proof.
  intro a. unfold op_ld. fold a.
  destruct (mem_read a s). reflexivity.
Qed.

Lemma op_ldi_eq (instr : Z) (s : state) :
  let a := u16 (reg s R_PC + sign_extend (Z.land instr 0x1FF) 9) in
  let p := fst (mem_read a s) in
  let s2 := snd (mem_read a s) in
  op_ldi instr s =
    Running (update_flags (DR instr)
               (set_reg (snd (mem_read p s2)) (DR instr) (fst (mem_read p s2)))).
Proof.
  intros a p s2. unfold op_ldi. fold a. unfold p, s2.
  destruct (mem_read a s) as [p' s2']. simpl.
  destruct (mem_read p' s2'). reflexivity.
Qed.

Lemma loaded_register (r v : Z) (s : state) :
  0 <= r < 8 -> reg (update_flags r (set_reg s r v)) r = v.
Proof.
  intro Hr. rewrite update_flags_reg by (unfold R_COND; lia).
  simpl. apply upd_same.
Qed.

(** C7. For an LDI instruction with PC the program counter after the fetch
    increment: the address PC + sign-extended 9-bit offset is read, the
    word found there is used as an address and read in turn, and the
    destination register receives that second word; the flags are then
    those of the loaded word. Both reads go through the memory read
    contract; away from the keyboard-status address the register receives
    [mem[mem[PC + offset]]] and memory and terminal are left as they were. An LD
    instruction with the same fields stops at the first read and loads the
    word at PC + offset itself. *)
Theorem ldi_indirect (sc : bool) (s : state) :
  let instr := fst (fetch s) in
  let pc := u16 (reg s R_PC + 1) in
  let s1 := set_reg s R_PC pc in
  let a := u16 (pc + sign_extend (Z.land instr 0x1FF) 9) in
  let p := fst (mem_read a s1) in
  let s2 := snd (mem_read a s1) in
  let v := fst (mem_read p s2) in
  let s3 := snd (mem_read p s2) in
  Z.shiftr instr 12 = OP_LDI ->
  step sc s = Running (update_flags (DR instr) (set_reg s3 (DR instr) v)) /\
  reg (state_of (step sc s)) (DR instr) = v /\
  (0 <= v < MEM_MAX -> reg (state_of (step sc s)) R_COND = flag_of v) /\
  (a <> MR_KBSR -> p <> MR_KBSR ->
   p = mem s a /\ v = mem s (mem s a) /\ s3 = s1) /\
  (forall ld : Z,
     Z.shiftr ld 12 = OP_LD -> DR ld = DR instr ->
     Z.land ld 0x1FF = Z.land instr 0x1FF ->
     execute sc ld s1 =
       Running (update_flags (DR instr) (set_reg s2 (DR instr) p))).
Proof.
  intros instr pc s1 a p s2 v s3 Hop.
  assert (Hpc : reg s1 R_PC = pc) by apply upd_same.
  assert (Hstep : step sc s =
                  Running (update_flags (DR instr) (set_reg s3 (DR instr) v))).
  { rewrite step_fetch_execute. fold instr.
    rewrite fetch_of_opcode by (fold instr; rewrite Hop; discriminate).
    cbn [snd]. fold pc s1. dispatch Hop.
    rewrite op_ldi_eq, Hpc. reflexivity. }
  rewrite Hstep. cbn [state_of].
  split; [reflexivity |].
  split; [apply loaded_register, DR_range |].
  split; [| split].
  - intro Hv. rewrite update_flags_cond; simpl; rewrite upd_same; auto.
  - intros Ha Hp.
    assert (H1 : mem_read a s1 = (mem s a, s1))
      by exact (mem_read_passive a s1 Ha).
    assert (Hp' : p = mem s a) by (unfold p; now rewrite H1).
    assert (Hs2 : s2 = s1) by (unfold s2; now rewrite H1).
    assert (H2 : mem_read p s2 = (mem s p, s1)).
    { rewrite Hs2. exact (mem_read_passive p s1 Hp). }
    unfold v, s3. rewrite H2. cbn [fst snd]. now rewrite <- Hp'.
  - intros ld Hld Hdr Hoff. dispatch Hld.
    rewrite op_ld_eq, Hpc, Hdr, Hoff. reflexivity.
Qed.

Lemma ldi_indirect_witness :
  Z.shiftr (fst (fetch (boot prog_ldi quiet))) 12 = OP_LDI /\
  mem (boot prog_ldi quiet) 0x3002 = 0x3003 /\
  mem (boot prog_ldi quiet) 0x3003 = 42 /\
  reg (state_of (step true (boot prog_ldi quiet))) R_R0 = 42 /\
  reg (state_of (step true (boot prog_ldi quiet))) R_COND = FL_POS.
Proof.
  assert (Hop : Z.shiftr (fst (fetch (boot prog_ldi quiet))) 12
                = OP_LDI) by (vm_compute; reflexivity).
  split; [exact Hop |].
  split; [vm_compute; reflexivity |]. split; [vm_compute; reflexivity |].
  destruct (ldi_indirect true (boot prog_ldi quiet) Hop)
    as (_ & Hv & Hfl & _).
  split.
  - etransitivity; [exact Hv | vm_compute; reflexivity].
  - rewrite Hfl; [vm_compute; reflexivity |].
    vm_compute. split; [discriminate | reflexivity].
Defined.

(** ** C5: the condition flags *)

Create HintDb flags.

Lemma update_flags_idem (r : Z) (s : state) :
  r <> R_COND ->
  reg (update_flags r (update_flags r s)) R_COND = reg (update_flags r s) R_COND.
Proof.
  intro Hr. unfold update_flags at 1.
  rewrite (update_flags_reg r r s Hr). unfold update_flags.
  destruct (reg s r =? 0); [| destruct (negb _)];
    simpl; now rewrite !upd_same.
Qed.

(** The handlers that end with [update_flags]. *)
Lemma op_add_sets (instr : Z) (s : state) :
  exists s', op_add instr s = Running (update_flags (DR instr) s').
Proof. unfold op_add. eexists. reflexivity. Qed.

Lemma op_and_sets (instr : Z) (s : state) :
  exists s', op_and instr s = Running (update_flags (DR instr) s').
Proof. unfold op_and. eexists. reflexivity. Qed.

Lemma op_not_sets (instr : Z) (s : state) :
  exists s', op_not instr s = Running (update_flags (DR instr) s').
Proof. unfold op_not. eexists. reflexivity. Qed.

Lemma op_lea_sets (instr : Z) (s : state) :
  exists s', op_lea instr s = Running (update_flags (DR instr) s').
Proof. unfold op_lea. eexists. reflexivity. Qed.

Lemma op_ld_sets (instr : Z) (s : state) :
  exists s', op_ld instr s = Running (update_flags (DR instr) s').
Proof. eexists. apply op_ld_eq. Qed.

Lemma op_ldi_sets (instr : Z) (s : state) :
  exists s', op_ldi instr s = Running (update_flags (DR instr) s').
Proof. eexists. apply op_ldi_eq. Qed.

Lemma op_ldr_sets (instr : Z) (s : state) :
  exists s', op_ldr instr s = Running (update_flags (DR instr) s').
Proof. unfold op_ldr. destruct (mem_read _ s). eexists. reflexivity. Qed.

(** The handlers that never write the condition-flags register. *)
Lemma op_br_keeps (instr : Z) (s : state) :
  reg (state_of (op_br instr s)) R_COND = reg s R_COND.
Proof.
  unfold op_br. destruct (negb _); [| reflexivity].
  now apply set_reg_cond.
Qed.

Lemma op_jmp_keeps (instr : Z) (s : state) :
  reg (state_of (op_jmp instr s)) R_COND = reg s R_COND.
Proof. unfold op_jmp. now apply set_reg_cond. Qed.

Lemma op_jsr_keeps (instr : Z) (s : state) :
  reg (state_of (op_jsr instr s)) R_COND = reg s R_COND.
Proof.
  unfold op_jsr. destruct (negb _); cbn [state_of];
    now rewrite !set_reg_cond.
Qed.

Lemma op_st_keeps (instr : Z) (s : state) :
  reg (state_of (op_st instr s)) R_COND = reg s R_COND.
Proof. reflexivity. Qed.

Lemma op_str_keeps (instr : Z) (s : state) :
  reg (state_of (op_str instr s)) R_COND = reg s R_COND.
Proof. reflexivity. Qed.

Lemma op_sti_keeps (instr : Z) (s : state) :
  reg (state_of (op_sti instr s)) R_COND = reg s R_COND.
Proof.
  unfold op_sti.
  pose proof (mem_read_reg
                (u16 (reg s R_PC + sign_extend (Z.land instr 0x1FF) 9)) s) as H.
  destruct (mem_read _ s) as [a s']. simpl in *. now rewrite H.
Qed.

(** A trap writes R7, and R0 for the two input routines, and no other
    register. *)
Lemma op_trap_reg (sc : bool) (instr : Z) (s : state) (r : Z) :
  r <> R_R0 -> r <> R_R7 -> reg (state_of (op_trap sc instr s)) r = reg s r.
Proof.
  intros H0 H7. unfold op_trap. cbv zeta.
  destruct (Z.land instr 255) as [| p | p];
    [| switch_on p |];
    repeat match goal with
           | |- context [if ?b then _ else _] => destruct b
           | |- context [let (_, _) := ?x in _] => destruct x
           | |- context [match ?x with Some _ => _ | None => _ end] => destruct x
           end;
    cbn [state_of reg set_reg set_io]; now rewrite ?upd_other.
Qed.

Lemma op_trap_keeps (sc : bool) (instr : Z) (s : state) :
  reg (state_of (op_trap sc instr s)) R_COND = reg s R_COND.
Proof. apply op_trap_reg; discriminate. Qed.

#[local] Hint Resolve op_add_sets op_and_sets op_not_sets op_lea_sets
  op_ld_sets op_ldi_sets op_ldr_sets op_br_keeps op_jmp_keeps op_jsr_keeps
  op_st_keeps op_str_keeps op_sti_keeps op_trap_keeps : flags.

(** What the dispatch does to the flags, opcode by opcode. *)
Lemma execute_flags (sc : bool) (instr : Z) (s : state) :
  (sets_flags (Z.shiftr instr 12) = true ->
   exists s', execute sc instr s = Running (update_flags (DR instr) s')) /\
  (sets_flags (Z.shiftr instr 12) = false ->
   reg (state_of (execute sc instr s)) R_COND = reg s R_COND).
Proof.
  unfold execute. cbv zeta.
  destruct (Z.shiftr instr 12) as [| p | p];
    [| switch_on p |];
    (split; intro Hs; try discriminate Hs; auto with flags).
Qed.

Lemma step_flags (sc : bool) (s : state) :
  let s' := state_of (step sc s) in
  (sets_flags (Z.shiftr (fst (fetch s)) 12) = true ->
   reg s' R_COND = reg (update_flags (DR (fst (fetch s))) s') R_COND) /\
  (sets_flags (Z.shiftr (fst (fetch s)) 12) = false ->
   reg s' R_COND = reg s R_COND).
Proof.
  intro s'. unfold s'. rewrite step_fetch_execute.
  destruct (execute_flags sc (fst (fetch s)) (snd (fetch s))) as [Hset Hkeep].
  split; intro Hs.
  - destruct (Hset Hs) as [s1 ->]. cbn [state_of].
    symmetry. apply update_flags_idem.
    pose proof (DR_range (fst (fetch s))). unfold R_COND. lia.
  - rewrite (Hkeep Hs). apply fetch_reg_other. discriminate.
Qed.

Lemma step_flags_ok (sc : bool) (s : state) :
  flags_ok s -> flags_ok (state_of (step sc s)).
Proof.
  intro Hok.
  destruct (step_flags sc s) as [Hset Hkeep].
  destruct (sets_flags (Z.shiftr (fst (fetch s)) 12)) eqn:Hs.
  - unfold flags_ok. rewrite (Hset eq_refl).
    apply update_flags_ok.
  - unfold flags_ok. now rewrite (Hkeep eq_refl).
Qed.

Lemma reachable_flags_ok (sc : bool) (s : state) :
  reachable sc s -> flags_ok s.
Proof.
  induction 1 as [image h | s s' Hreach IH Hstep].
  - right. left. reflexivity.
  - replace s' with (state_of (step sc s)) by now rewrite Hstep.
    now apply step_flags_ok.
Qed.

Lemma flags_ok_one_bit (s : state) :
  flags_ok s -> bits_set (reg s R_COND) = 1%nat.
Proof. intros [-> | [-> | ->]]; reflexivity. Qed.

(** C5. The machine starts with the flags ZERO; in every state the loop
    reaches, the condition-flags register holds POSITIVE, ZERO or NEGATIVE,
    hence exactly one bit, and so it does after the next instruction,
    however that ends. ADD, AND, NOT, LD, LDI, LDR and LEA leave the flags
    that [update_flags] gives for their destination register; after any
    other instruction the flags are those before it. *)
Theorem flags_invariant (sc : bool) (s : state) :
  reachable sc s ->
  let instr := fst (fetch s) in
  let s' := state_of (step sc s) in
  (forall image h, reg (init image h) R_COND = FL_ZRO) /\
  flags_ok s /\ bits_set (reg s R_COND) = 1%nat /\
  flags_ok s' /\ bits_set (reg s' R_COND) = 1%nat /\
  (sets_flags (Z.shiftr instr 12) = true ->
   reg s' R_COND = reg (update_flags (DR instr) s') R_COND) /\
  (sets_flags (Z.shiftr instr 12) = false ->
   reg s' R_COND = reg s R_COND).
Proof.
  intros Hreach instr s'.
  pose proof (reachable_flags_ok sc s Hreach) as Hok.
  pose proof (step_flags_ok sc s Hok) as Hok'.
  split; [reflexivity |].
  split; [exact Hok |].
  split; [now apply flags_ok_one_bit |].
  split; [exact Hok' |].
  split; [now apply flags_ok_one_bit |].
  apply step_flags.
Qed.

Lemma flags_invariant_witness :
  reachable true (boot prog_imm quiet) /\
  flags_ok (state_of (step true (boot prog_imm quiet))).
Proof.
  assert (Hr : reachable true (boot prog_imm quiet))
    by apply reach_init.
  split; [exact Hr |].
  destruct (flags_invariant true (boot prog_imm quiet) Hr)
    as (_ & _ & _ & Hok' & _).
  exact Hok'.
Defined.

(** ** C10: the string traps read the array, not the device *)

Lemma int_of_char_byte (sc : bool) (x : Z) : int_of_char sc x mod 256 = x mod 256.
Proof.
  unfold int_of_char. cbv zeta.
  destruct (sc && (128 <=? x mod 256)).
  - change (x mod 256 - 256) with (x mod 256 + (-1) * 256).
    now rewrite Z.mod_add, Z.mod_mod by discriminate.
  - now rewrite Z.mod_mod by discriminate.
Qed.

(** [putc] writes the byte of a [char], whatever its sign. *)
Lemma char_of_int_char (sc : bool) (x : Z) :
  char_of_int (int_of_char sc x) = char_of_int (x mod 256).
Proof.
  unfold char_of_int.
  now rewrite int_of_char_byte, Z.mod_mod by discriminate.
Qed.

Lemma putc_char (sc : bool) (x : Z) (h : host) :
  putc (int_of_char sc x) h = written [char_of_int (x mod 256)] h.
Proof. unfold putc, written. now rewrite char_of_int_char. Qed.

(** A [char] is zero exactly when its byte is. *)
Lemma int_of_char_zero (sc : bool) (x : Z) :
  (int_of_char sc x =? 0) = (x mod 256 =? 0).
Proof.
  unfold int_of_char. cbv zeta.
  pose proof (Z.mod_pos_bound x 256 eq_refl) as Hb.
  destruct (sc && (128 <=? x mod 256)) eqn:Hneg; [| reflexivity].
  apply andb_true_iff in Hneg. destruct Hneg as [_ Hge].
  apply Z.leb_le in Hge.
  destruct (Z.eqb_spec (x mod 256 - 256) 0), (Z.eqb_spec (x mod 256) 0);
    try reflexivity; lia.
Qed.

Lemma land_255 (w : Z) : Z.land w 0xFF = w mod 256.
Proof. apply (Z.land_ones w 8). lia. Qed.

Lemma written_nil (h : host) : written [] h = h.
Proof. destruct h. unfold written. simpl. now rewrite app_nil_r. Qed.

Lemma written_app (cs ds : list ascii) (h : host) :
  written ds (written cs h) = written (cs ++ ds) h.
Proof. unfold written. simpl. now rewrite app_assoc. Qed.

(** The loop of PUTS on a string of [n] non-zero words followed by a zero
    word, all inside the array. *)
Lemma puts_loop_string (sc : bool) (m : Z -> Z) (n : nat) :
  forall (room : nat) (c : Z) (h : host),
    (n < room)%nat ->
    (forall i, (i < n)%nat -> m (c + Z.of_nat i) <> 0) ->
    m (c + Z.of_nat n) = 0 ->
    puts_loop sc room m c h = Some (written (word_chars (cells m c n)) h).
Proof.
  induction n as [| n IH]; intros room c h Hroom Hnz Hz;
    (destruct room as [| room]; [lia |]); simpl.
  - rewrite Z.add_0_r in Hz. rewrite Hz. simpl. now rewrite written_nil.
  - assert (Hc : m c <> 0).
    { specialize (Hnz 0%nat). rewrite Z.add_0_r in Hnz. apply Hnz. lia. }
    apply Z.eqb_neq in Hc. rewrite Hc. simpl.
    rewrite (IH room (c + 1) _).
    + f_equal. rewrite putc_char. fold (low_byte (m c)).
      now rewrite written_app.
    + lia.
    + intros i Hi. replace (c + 1 + Z.of_nat i) with (c + Z.of_nat (S i)) by lia.
      apply Hnz. lia.
    + replace (c + 1 + Z.of_nat n) with (c + Z.of_nat (S n)) by lia.
      exact Hz.
Qed.

Lemma putsp_loop_string (sc : bool) (m : Z -> Z) (n : nat) :
  forall (room : nat) (c : Z) (h : host),
    (n < room)%nat ->
    (forall i, (i < n)%nat -> m (c + Z.of_nat i) <> 0) ->
    m (c + Z.of_nat n) = 0 ->
    putsp_loop sc room m c h = Some (written (packed_chars (cells m c n)) h).
Proof.
  induction n as [| n IH]; intros room c h Hroom Hnz Hz;
    (destruct room as [| room]; [lia |]); simpl.
  - rewrite Z.add_0_r in Hz. rewrite Hz. simpl. now rewrite written_nil.
  - assert (Hc : m c <> 0).
    { specialize (Hnz 0%nat). rewrite Z.add_0_r in Hnz. apply Hnz. lia. }
    apply Z.eqb_neq in Hc. rewrite Hc. simpl.
    rewrite (IH room (c + 1) _).
    + f_equal. rewrite int_of_char_zero, !putc_char.
      rewrite land_255, Z.mod_mod by discriminate.
      fold (high_byte (m c)) (low_byte (m c)).
      destruct (high_byte (m c) =? 0); simpl negb; cbv iota;
        now rewrite !written_app.
    + lia.
    + intros i Hi. replace (c + 1 + Z.of_nat i) with (c + Z.of_nat (S i)) by lia.
      apply Hnz. lia.
    + replace (c + 1 + Z.of_nat n) with (c + Z.of_nat (S n)) by lia.
      exact Hz.
Qed.

Lemma cells_In (m : Z -> Z) (n : nat) :
  forall a k, a <= k < a + Z.of_nat n -> In (m k) (cells m a n).
Proof.
  induction n as [| n IH]; intros a k Hk; [lia |].
  simpl. destruct (Z.eq_dec a k) as [-> | Hne]; [now left | right].
  apply IH. lia.
Qed.

Lemma op_trap_puts (sc : bool) (instr : Z) (s : state) :
  Z.land instr 0xFF = TRAP_PUTS ->
  op_trap sc instr s =
    let s7 := set_reg s R_R7 (reg s R_PC) in
    match puts_loop sc (Z.to_nat (MEM_MAX - reg s R_R0)) (mem s) (reg s R_R0) (io s) with
    | Some h => Running (set_io s7 h)
    | None => Undefined s7
    end.
Proof. intro Hv. unfold op_trap. rewrite Hv. reflexivity. Qed.

Lemma op_trap_putsp (sc : bool) (instr : Z) (s : state) :
  Z.land instr 0xFF = TRAP_PUTSP ->
  op_trap sc instr s =
    let s7 := set_reg s R_R7 (reg s R_PC) in
    match putsp_loop sc (Z.to_nat (MEM_MAX - reg s R_R0)) (mem s) (reg s R_R0) (io s) with
    | Some h => Running (set_io s7 h)
    | None => Undefined s7
    end.
Proof. intro Hv. unfold op_trap. rewrite Hv. reflexivity. Qed.

(** C10. PUTS and PUTSP walk the array [mem] itself. Let R0 hold the
    address of [n] non-zero words followed by a zero word, all inside the
    array. The trap then ends normally and the resulting machine is the one
    fetch left, with the return address in R7 and, appended to the output,
    the characters of exactly those [n] stored words (one per word for
    PUTS, low byte then non-zero high byte for PUTSP). Memory, the pending
    input and the other registers are as before: no read goes through
    [mem_read], so a string that spans the keyboard-status address polls
    nothing, and the word stored at that address is among those printed. *)
Theorem string_traps_read_the_array (sc : bool) (s : state) (n : nat) :
  let instr := fst (fetch s) in
  let pc := u16 (reg s R_PC + 1) in
  let s7 := set_reg (set_reg s R_PC pc) R_R7 pc in
  let a := reg s R_R0 in
  let str := cells (mem s) a n in
  Z.shiftr instr 12 = OP_TRAP ->
  a + Z.of_nat n < MEM_MAX ->
  (forall i, (i < n)%nat -> mem s (a + Z.of_nat i) <> 0) ->
  mem s (a + Z.of_nat n) = 0 ->
  (Z.land instr 0xFF = TRAP_PUTS ->
   step sc s = Running (set_io s7 (written (word_chars str) (io s)))) /\
  (Z.land instr 0xFF = TRAP_PUTSP ->
   step sc s = Running (set_io s7 (written (packed_chars str) (io s)))) /\
  (Z.land instr 0xFF = TRAP_PUTS \/ Z.land instr 0xFF = TRAP_PUTSP ->
   mem (state_of (step sc s)) = mem s /\
   keys (io (state_of (step sc s))) = keys (io s) /\
   closed (io (state_of (step sc s))) = closed (io s)) /\
  (a <= MR_KBSR < a + Z.of_nat n -> In (mem s MR_KBSR) str).
Proof.
  intros instr pc s7 a str Hop Hend Hnz Hz.
  assert (Hstep : step sc s = op_trap sc instr (set_reg s R_PC pc)).
  { rewrite step_fetch_execute. fold instr.
    rewrite fetch_of_opcode by (fold instr; rewrite Hop; discriminate).
    cbn [snd]. now apply execute_trap. }
  assert (Hroom : (n < Z.to_nat (MEM_MAX - a))%nat) by lia.
  assert (Hputs : Z.land instr 0xFF = TRAP_PUTS ->
                  step sc s = Running (set_io s7 (written (word_chars str) (io s)))).
  { intro Hv. rewrite Hstep, (op_trap_puts sc instr _ Hv). cbv zeta.
    change (reg (set_reg s R_PC pc) R_R0) with a.
    change (mem (set_reg s R_PC pc)) with (mem s).
    change (io (set_reg s R_PC pc)) with (io s).
    rewrite (puts_loop_string sc (mem s) n _ a (io s) Hroom Hnz Hz).
    reflexivity. }
  assert (Hputsp : Z.land instr 0xFF = TRAP_PUTSP ->
                   step sc s = Running (set_io s7 (written (packed_chars str) (io s)))).
  { intro Hv. rewrite Hstep, (op_trap_putsp sc instr _ Hv). cbv zeta.
    change (reg (set_reg s R_PC pc) R_R0) with a.
    change (mem (set_reg s R_PC pc)) with (mem s).
    change (io (set_reg s R_PC pc)) with (io s).
    rewrite (putsp_loop_string sc (mem s) n _ a (io s) Hroom Hnz Hz).
    reflexivity. }
  split; [exact Hputs |]. split; [exact Hputsp |]. split.
  - intros [Hv | Hv]; [rewrite (Hputs Hv) | rewrite (Hputsp Hv)];
      repeat split.
  - intro Hspan. now apply cells_In.
Qed.

Lemma string_traps_read_the_array_witness :
  (Z.shiftr (fst (fetch at_puts)) 12 = OP_TRAP /\
   Z.land (fst (fetch at_puts)) 0xFF = TRAP_PUTS /\
   reg at_puts R_R0 = 0xFDFF /\
   mem at_puts MR_KBSR = 73 /\
   fst (mem_read MR_KBSR at_puts) = 0x8000 /\
   step true at_puts =
     Running (set_io (set_reg (set_reg at_puts R_PC 0x3002) R_R7 0x3002)
                     (mkHost ["a"%char] false ["H"%char; "I"%char; "!"%char]
                             0 4096))) /\
  (Z.shiftr (fst (fetch at_putsp)) 12 = OP_TRAP /\
   Z.land (fst (fetch at_putsp)) 0xFF = TRAP_PUTSP /\
   mem at_putsp MR_KBSR = 33 /\
   step true at_putsp =
     Running (set_io (set_reg (set_reg at_putsp R_PC 0x3002) R_R7 0x3002)
                     (mkHost ["a"%char] false ["H"%char; "I"%char; "!"%char]
                             0 4096))).
Proof.
  split.
  - assert (Hop : Z.shiftr (fst (fetch at_puts)) 12 = OP_TRAP)
      by (vm_compute; reflexivity).
    assert (Hv : Z.land (fst (fetch at_puts)) 0xFF = TRAP_PUTS)
      by (vm_compute; reflexivity).
    assert (Hend : reg at_puts R_R0 + Z.of_nat 3 < MEM_MAX)
      by (vm_compute; reflexivity).
    assert (Hnz : forall i, (i < 3)%nat ->
                            mem at_puts (reg at_puts R_R0 + Z.of_nat i) <> 0).
    { intros i Hi. destruct i as [| [| [| i]]]; [| | | lia];
        vm_compute; discriminate. }
    assert (Hz : mem at_puts (reg at_puts R_R0 + Z.of_nat 3) = 0)
      by (vm_compute; reflexivity).
    split; [exact Hop |]. split; [exact Hv |].
    split; [vm_compute; reflexivity |]. split; [vm_compute; reflexivity |].
    split; [vm_compute; reflexivity |].
    destruct (string_traps_read_the_array true at_puts 3 Hop Hend Hnz Hz)
      as (Hputs & _).
    exact (Hputs Hv).
  - assert (Hop : Z.shiftr (fst (fetch at_putsp)) 12 = OP_TRAP)
      by (vm_compute; reflexivity).
    assert (Hv : Z.land (fst (fetch at_putsp)) 0xFF = TRAP_PUTSP)
      by (vm_compute; reflexivity).
    assert (Hend : reg at_putsp R_R0 + Z.of_nat 2 < MEM_MAX)
      by (vm_compute; reflexivity).
    assert (Hnz : forall i, (i < 2)%nat ->
                            mem at_putsp (reg at_putsp R_R0 + Z.of_nat i) <> 0).
    { intros i Hi. destruct i as [| [| i]]; [| | lia];
        vm_compute; discriminate. }
    assert (Hz : mem at_putsp (reg at_putsp R_R0 + Z.of_nat 2) = 0)
      by (vm_compute; reflexivity).
    split; [exact Hop |]. split; [exact Hv |].
    split; [vm_compute; reflexivity |].
    destruct (string_traps_read_the_array true at_putsp 2 Hop Hend Hnz Hz)
      as (_ & Hputsp & _).
    exact (Hputsp Hv).
Defined.

(** * Further properties of the code *)

(** ** swap16 and the byte order of image files *)

Lemma byte_val_range (b : ascii) : 0 <= byte_val b < 256.
Proof. apply char_code_range. Qed.

(** [swap16] exchanges the two bytes of a word. *)
Lemma swap16_bytes (hi lo : Z) :
  0 <= hi < 256 -> 0 <= lo < 256 -> swap16 (256 * hi + lo) = 256 * lo + hi.
Proof.
  intros Hhi Hlo. unfold swap16, u16.
  rewrite Z.shiftr_div_pow2 by lia. change (2 ^ 8) with 256.
  replace ((256 * hi + lo) / 256) with hi
    by (Z.div_mod_to_equations; lia).
  rewrite Z.lor_comm, lor_shiftl_low by (change (2 ^ 8) with 256; lia).
  change (2 ^ 8) with 256. change MEM_MAX with 65536.
  Z.div_mod_to_equations; lia.
Qed.

Lemma word_bytes (x : Z) :
  0 <= x < MEM_MAX ->
  x = 256 * (x / 256) + x mod 256 /\ 0 <= x / 256 < 256 /\ 0 <= x mod 256 < 256.
Proof.
  change MEM_MAX with 65536. intro Hx. Z.div_mod_to_equations; lia.
Qed.

(** X1. [swap16] is its own inverse on words: it exchanges the two bytes
    of a word, which is the conversion that [ntohs] does on a little-endian
    host, and its result is a word. *)
Theorem swap16_involution (x : Z) :
  0 <= x < MEM_MAX ->
  swap16 (swap16 x) = x /\
  swap16 x = ntohs true x /\
  swap16 x = 256 * (x mod 256) + x / 256 /\
  0 <= swap16 x < MEM_MAX.
Proof.
  intro Hx. destruct (word_bytes x Hx) as (Hsplit & Hhi & Hlo).
  assert (Hs : swap16 x = 256 * (x mod 256) + x / 256).
  { rewrite Hsplit at 1. now apply swap16_bytes. }
  split; [| split; [| split]].
  - rewrite Hs, swap16_bytes by assumption. lia.
  - rewrite Hs. unfold ntohs. now rewrite (Z.mod_small (x / 256)).
  - exact Hs.
  - apply u16_range.
Qed.

Lemma swap16_involution_witness :
  0 <= 0x1234 < MEM_MAX /\ swap16 0x1234 = 0x3412 /\ swap16 (swap16 0x1234) = 0x1234.
Proof.
  assert (H : 0 <= 0x1234 < MEM_MAX) by (change MEM_MAX with 65536; lia).
  split; [exact H |]. split; [reflexivity |].
  exact (proj1 (swap16_involution 0x1234 H)).
Defined.

(** ** read_image_file *)

(** Reading a word and converting it with [ntohs] gives the big-endian
    value of its two bytes, whatever the byte order of the host. *)
Lemma ntohs_raw_word (le : bool) (b0 b1 : ascii) :
  ntohs le (raw_word le b0 b1) = 256 * byte_val b0 + byte_val b1.
Proof.
  pose proof (byte_val_range b0). pose proof (byte_val_range b1).
  unfold ntohs, raw_word. destruct le; [| reflexivity].
  Z.div_mod_to_equations; lia.
Qed.

Lemma ntohs_0 (le : bool) : ntohs le 0 = 0.
Proof. destruct le; reflexivity. Qed.

Lemma fread_words_values (le : bool) (count : nat) :
  forall bs,
    map (ntohs le) (fst (fread_words le count bs)) = firstn count (be_words bs).
Proof.
  induction count as [| count IH]; intro bs; [reflexivity |].
  destruct bs as [| b0 [| b1 rest]]; try reflexivity.
  simpl. specialize (IH rest).
  destruct (fread_words le count rest) as [ws partial]. simpl in *.
  now rewrite ntohs_raw_word, IH.
Qed.

Lemma be_words_length (bs : list ascii) :
  List.length (be_words bs) = Nat.div2 (List.length bs).
Proof.
  assert (H : forall n bs, (List.length bs <= n)%nat ->
                           List.length (be_words bs) = Nat.div2 (List.length bs)).
  { clear bs. induction n as [| n IH]; intros bs Hn.
    - destruct bs; [reflexivity | simpl in Hn; lia].
    - destruct bs as [| b0 [| b1 rest]]; try reflexivity.
      simpl. f_equal. apply IH. simpl in Hn. lia. }
  now apply (H (List.length bs)).
Qed.

(** [fread] ends inside an element only when the bytes left are odd in
    number and fewer than asked for. *)
Lemma fread_words_whole (le : bool) (count : nat) :
  forall bs,
    Nat.even (List.length bs) = true \/ (count <= Nat.div2 (List.length bs))%nat ->
    snd (fread_words le count bs) = false.
Proof.
  induction count as [| count IH]; intros bs Hbs; [reflexivity |].
  destruct bs as [| b0 [| b1 rest]].
  - reflexivity.
  - simpl in Hbs. destruct Hbs; [discriminate | lia].
  - simpl. specialize (IH rest).
    destruct (fread_words le count rest) as [ws partial]. simpl in *.
    apply IH. destruct Hbs as [He | Hc]; [now left | right; lia].
Qed.

Lemma store_words_lookup (ws : list Z) :
  forall m p a,
    store_words m p ws a =
      if (p <=? a) && (a <? p + Z.of_nat (List.length ws))
      then nth (Z.to_nat (a - p)) ws 0
      else m a.
Proof.
  induction ws as [| w ws IH]; intros m p a.
  - simpl. destruct (Z.leb_spec p a), (Z.ltb_spec a (p + 0)); try reflexivity; lia.
  - cbn [store_words]. rewrite IH. cbn [List.length].
    destruct (Z.leb_spec (p + 1) a), (Z.ltb_spec a (p + 1 + Z.of_nat (List.length ws))),
      (Z.leb_spec p a), (Z.ltb_spec a (p + Z.of_nat (S (List.length ws))));
      cbn [andb]; try lia;
      try (rewrite upd_other by lia; reflexivity).
    + replace (Z.to_nat (a - p)) with (S (Z.to_nat (a - (p + 1)))) by lia.
      reflexivity.
    + assert (a = p) by lia. subst a.
      rewrite upd_same, Z.sub_diag. reflexivity.
Qed.

Lemma swap_words_lookup (le : bool) (read : nat) :
  forall m p a,
    swap_words le read m p a =
      if (p <=? a) && (a <? p + Z.of_nat read) then ntohs le (m a) else m a.
Proof.
  induction read as [| read IH]; intros m p a.
  - simpl. destruct (Z.leb_spec p a), (Z.ltb_spec a (p + 0)); try reflexivity; lia.
  - cbn [swap_words]. rewrite IH.
    destruct (Z.leb_spec (p + 1) a), (Z.ltb_spec a (p + 1 + Z.of_nat read)),
      (Z.leb_spec p a), (Z.ltb_spec a (p + Z.of_nat (S read)));
      cbn [andb]; try lia;
      try (rewrite upd_other by lia; reflexivity).
    assert (a = p) by lia. subst a. now rewrite upd_same.
Qed.

(** What [read_image_file] does with a file of at least two bytes. *)
Lemma read_image_file_eq (le : bool) (h0 h1 : ascii) (body : list ascii)
  (m : Z -> Z) :
  let origin := 256 * byte_val h0 + byte_val h1 in
  let room := Z.to_nat (u16 (MEM_MAX - origin)) in
  read_image_file le (h0 :: h1 :: body) m =
    if snd (fread_words le room body) then None
    else Some (swap_words le (List.length (fst (fread_words le room body)))
                 (store_words m origin (fst (fread_words le room body))) origin).
Proof.
  intros origin room. unfold read_image_file.
  cbn [fread_words skipn]. rewrite ntohs_raw_word. fold origin room.
  destruct (fread_words le room body) as [ws partial]. reflexivity.
Qed.

(** X2. An image file whose body does not end inside a word that is still
    to be read is loaded as follows, on a host of either byte order: with
    the origin the big-endian value of the first two bytes, the words of
    the body, read big-endian and cut off after as many as there are cells
    from the origin to the end of memory (modulo 2^16), lie in memory from
    the origin on, and every other cell is as before. *)
Theorem read_image_file_loads (le : bool) (h0 h1 : ascii) (body : list ascii)
  (m : Z -> Z) :
  let origin := 256 * byte_val h0 + byte_val h1 in
  let room := Z.to_nat (u16 (MEM_MAX - origin)) in
  let words := firstn room (be_words body) in
  Nat.even (List.length body) = true \/ (room <= Nat.div2 (List.length body))%nat ->
  exists m',
    read_image_file le (h0 :: h1 :: body) m = Some m' /\
    forall a, m' a = load origin words m a.
Proof.
  intros origin room words Hwhole.
  rewrite read_image_file_eq. fold origin room.
  rewrite (fread_words_whole le room body Hwhole).
  eexists. split; [reflexivity |]. intro a.
  pose proof (fread_words_values le room body) as Hvals. fold words in Hvals.
  rewrite swap_words_lookup, store_words_lookup. unfold load.
  rewrite <- Hvals, length_map.
  destruct ((origin <=? a) && (a <? origin + _)); [| reflexivity].
  rewrite <- (ntohs_0 le) at 2. now rewrite map_nth.
Qed.

Lemma read_image_file_loads_witness :
  exists m',
    read_image_file true file_add_halt blank = Some m' /\
    m' 0x3000 = 0x1025 /\ m' 0x3001 = 0xF025 /\ m' 0x3002 = 0.
Proof.
  destruct (read_image_file_loads true "048"%char "000"%char
              ["016"; "037"; "240"; "037"]%char blank (or_introl eq_refl))
    as (m' & Hload & Hcells).
  exists m'. split; [exact Hload |].
  rewrite !Hcells. vm_compute. repeat split.
Defined.

(** The cells of a loaded image, for any file that [read_image_file]
    accepts. *)
Lemma read_image_file_cells (le : bool) (h0 h1 : ascii) (body : list ascii)
  (m m' : Z -> Z) :
  let origin := 256 * byte_val h0 + byte_val h1 in
  let room := Z.to_nat (u16 (MEM_MAX - origin)) in
  read_image_file le (h0 :: h1 :: body) m = Some m' ->
  forall a, m' a = load origin (firstn room (be_words body)) m a.
Proof.
  intros origin room Hread a.
  rewrite read_image_file_eq in Hread. fold origin room in Hread.
  destruct (snd (fread_words le room body)); [discriminate |].
  injection Hread as <-.
  pose proof (fread_words_values le room body) as Hvals.
  rewrite swap_words_lookup, store_words_lookup. unfold load.
  rewrite <- Hvals, length_map.
  destruct ((origin <=? a) && (a <? origin + _)); [| reflexivity].
  rewrite <- (ntohs_0 le) at 2. now rewrite map_nth.
Qed.

Lemma read_image_file_short (le : bool) (file : list ascii) (m m' : Z -> Z) :
  read_image_file le file m = Some m' ->
  exists h0 h1 body, file = h0 :: h1 :: body.
Proof.
  intro Hread. destruct file as [| h0 [| h1 body]]; try discriminate.
  now exists h0, h1, body.
Qed.

Lemma be_words_range (bs : list ascii) :
  Forall (fun w => 0 <= w < MEM_MAX) (be_words bs).
Proof.
  assert (H : forall n bs, (List.length bs <= n)%nat ->
                           Forall (fun w => 0 <= w < MEM_MAX) (be_words bs)).
  { clear bs. induction n as [| n IH]; intros bs Hn.
    - destruct bs; [constructor | simpl in Hn; lia].
    - destruct bs as [| b0 [| b1 rest]]; try constructor.
      + pose proof (byte_val_range b0). pose proof (byte_val_range b1).
        change MEM_MAX with 65536. lia.
      + apply IH. simpl in Hn. lia. }
  now apply (H (List.length bs)).
Qed.

Lemma Forall_firstn_words (n : nat) (ws : list Z) :
  Forall (fun w => 0 <= w < MEM_MAX) ws ->
  Forall (fun w => 0 <= w < MEM_MAX) (firstn n ws).
Proof.
  intro H. revert n. induction H as [| w ws Hw Hws IH]; intro n.
  - destruct n; constructor.
  - destruct n; constructor; auto.
Qed.

Lemma load_words_only (origin : Z) (words : list Z) (m : Z -> Z) :
  Forall (fun w => 0 <= w < MEM_MAX) words -> words_only m ->
  words_only (load origin words m).
Proof.
  intros Hws Hm a. unfold load.
  destruct ((origin <=? a) && (a <? origin + _)); [| apply Hm].
  destruct (nth_in_or_default (Z.to_nat (a - origin)) words 0) as [Hin | ->].
  - rewrite Forall_forall in Hws. now apply Hws.
  - change MEM_MAX with 65536. lia.
Qed.

Lemma origin_room (origin : Z) :
  0 <= origin < MEM_MAX ->
  origin + Z.of_nat (Z.to_nat (u16 (MEM_MAX - origin))) <= MEM_MAX.
Proof.
  unfold u16. change MEM_MAX with 65536. intro H.
  destruct (Z.eq_dec origin 0) as [-> | Hne]; [vm_compute; discriminate |].
  rewrite Z.mod_small by lia. lia.
Qed.

(** X3. An image file whose origin is 0 loads nothing, whatever its body:
    the count of words to read, 65536, does not fit the 16-bit variable
    that holds it and becomes 0. *)
Theorem read_image_file_origin_zero (le : bool) (body : list ascii) (m : Z -> Z) :
  read_image_file le (zero :: zero :: body) m = Some m.
Proof. rewrite read_image_file_eq. reflexivity. Qed.

(** X4. Whatever file [read_image_file] accepts, it writes words, and only
    into cells from the origin of the file up to the end of the array: a
    memory of 16-bit words stays one, and every cell below the origin or
    outside the array is as before. An image too long for the room left
    is cut off; it does not wrap around to address 0. *)
Theorem read_image_file_in_bounds (le : bool) (h0 h1 : ascii)
  (body : list ascii) (m m' : Z -> Z) :
  let origin := 256 * byte_val h0 + byte_val h1 in
  read_image_file le (h0 :: h1 :: body) m = Some m' ->
  words_only m ->
  words_only m' /\
  forall a, a < origin \/ MEM_MAX <= a -> m' a = m a.
Proof.
  intros origin Hread Hm.
  pose proof (read_image_file_cells le h0 h1 body m m' Hread) as Hcells.
  cbv zeta in Hcells. fold origin in Hcells.
  pose proof (byte_val_range h0) as H0. pose proof (byte_val_range h1) as H1.
  assert (Horigin : 0 <= origin < MEM_MAX)
    by (unfold origin; change MEM_MAX with 65536; lia).
  split.
  - intro a. rewrite Hcells. apply load_words_only; [| exact Hm].
    apply Forall_firstn_words, be_words_range.
  - intros a Ha. rewrite Hcells. unfold load.
    pose proof (origin_room origin Horigin) as Hroom.
    pose proof (length_firstn (Z.to_nat (u16 (MEM_MAX - origin))) (be_words body)).
    destruct (Z.leb_spec origin a), (Z.ltb_spec a (origin + Z.of_nat
      (List.length (firstn (Z.to_nat (u16 (MEM_MAX - origin))) (be_words body)))));
      cbn [andb]; try reflexivity; lia.
Qed.

Lemma words_only_blank : words_only blank.
Proof. intro a. unfold blank. change MEM_MAX with 65536. lia. Qed.

Lemma image_add_halt_loaded :
  read_image_file true file_add_halt blank = Some image_add_halt.
Proof. vm_compute. reflexivity. Qed.

Lemma read_image_file_in_bounds_witness :
  read_image_file true file_add_halt blank = Some image_add_halt /\
  words_only blank /\ words_only image_add_halt /\ image_add_halt 0x2FFF = 0.
Proof.
  split; [exact image_add_halt_loaded |]. split; [exact words_only_blank |].
  destruct (read_image_file_in_bounds true "048"%char "000"%char
              ["016"; "037"; "240"; "037"]%char blank image_add_halt
              image_add_halt_loaded words_only_blank) as (Hw & Hframe).
  split; [exact Hw |].
  rewrite Hframe; [reflexivity | left; reflexivity].
Defined.

(** ** Image files written and read back *)

Lemma byte_val_of_Z (x : Z) :
  0 <= x < 256 -> byte_val (ascii_of_N (Z.to_N x)) = x.
Proof.
  intro Hx. unfold byte_val.
  rewrite N_ascii_embedding by lia. lia.
Qed.

Lemma be_words_bytes (words : list Z) :
  Forall (fun w => 0 <= w < MEM_MAX) words ->
  be_words (flat_map be_bytes words) = words.
Proof.
  induction 1 as [| w ws Hw Hws IH]; [reflexivity |].
  destruct (word_bytes w Hw) as (Hsplit & Hhi & Hlo).
  cbn [flat_map be_bytes app be_words].
  rewrite IH, (Z.mod_small (w / 256)) by lia.
  rewrite !byte_val_of_Z by lia.
  now rewrite <- Hsplit.
Qed.

Lemma be_bytes_length (words : list Z) :
  List.length (flat_map be_bytes words) = (2 * List.length words)%nat.
Proof.
  induction words as [| w ws IH]; [reflexivity |].
  cbn [flat_map be_bytes app List.length]. rewrite IH. lia.
Qed.

Lemma even_double (n : nat) : Nat.even (2 * n) = true.
Proof. rewrite Nat.even_mul. reflexivity. Qed.

Lemma encoded_image_loads (le : bool) (img : Z * list Z) (m : Z -> Z) :
  image_ok img ->
  exists m',
    read_image_file le (encode_image (fst img) (snd img)) m = Some m' /\
    forall a, m' a = load (fst img) (snd img) m a.
Proof.
  destruct img as [origin words]. cbn [fst snd].
  intros (Horigin & Hwords & Hfits). cbn [fst snd] in *.
  assert (Hw : 0 <= origin < MEM_MAX) by lia.
  destruct (word_bytes origin Hw) as (Hsplit & Hhi & Hlo).
  unfold encode_image, be_bytes at 1. cbn [app].
  assert (Ho : 256 * byte_val (ascii_of_N (Z.to_N (origin / 256 mod 256)))
               + byte_val (ascii_of_N (Z.to_N (origin mod 256))) = origin).
  { rewrite (Z.mod_small (origin / 256)) by lia.
    rewrite !byte_val_of_Z by lia. lia. }
  assert (Hroom : Z.to_nat (u16 (MEM_MAX - origin)) = Z.to_nat (MEM_MAX - origin)).
  { unfold u16. rewrite Z.mod_small by lia. reflexivity. }
  rewrite read_image_file_eq, Ho, Hroom.
  rewrite fread_words_whole
    by (left; rewrite be_bytes_length; apply even_double).
  eexists. split; [reflexivity |]. intro a.
  pose proof (fread_words_values le (Z.to_nat (MEM_MAX - origin))
                (flat_map be_bytes words)) as Hvals.
  rewrite be_words_bytes, firstn_all2 in Hvals by (assumption || lia).
  rewrite swap_words_lookup, store_words_lookup. unfold load.
  set (ws := fst (fread_words le (Z.to_nat (MEM_MAX - origin))
                    (flat_map be_bytes words))) in *.
  clearbody ws. subst words. rewrite length_map.
  destruct ((origin <=? a) && (a <? origin + _)); [| reflexivity].
  rewrite <- (ntohs_0 le) at 2. now rewrite map_nth.
Qed.

(** X5. Writing an image and loading it back: the file made of the origin
    and the words of a well-formed image, each as two bytes with the high
    byte first, is accepted by [read_image_file] on a host of either byte
    order, and leaves exactly those words in memory from the origin on and
    every other cell as it was. *)
Theorem image_round_trip (le : bool) (origin : Z) (words : list Z) (m : Z -> Z) :
  image_ok (origin, words) ->
  exists m',
    read_image_file le (encode_image origin words) m = Some m' /\
    (forall i, (i < List.length words)%nat ->
               m' (origin + Z.of_nat i) = nth i words 0) /\
    (forall a, a < origin \/ origin + Z.of_nat (List.length words) <= a ->
               m' a = m a).
Proof.
  intro Hok.
  destruct (encoded_image_loads le (origin, words) m Hok) as (m' & Hread & Hcells).
  cbn [fst snd] in *.
  exists m'. split; [exact Hread |]. split.
  - intros i Hi. rewrite Hcells. unfold load.
    destruct (Z.leb_spec origin (origin + Z.of_nat i)),
      (Z.ltb_spec (origin + Z.of_nat i) (origin + Z.of_nat (List.length words)));
      cbn [andb]; try lia.
    f_equal. lia.
  - intros a Ha. rewrite Hcells. unfold load.
    destruct (Z.leb_spec origin a),
      (Z.ltb_spec a (origin + Z.of_nat (List.length words)));
      cbn [andb]; try reflexivity; lia.
Qed.

Lemma image_round_trip_witness :
  image_ok (0x3000, [0x1025; 0xF025]) /\
  encode_image 0x3000 [0x1025; 0xF025] = file_add_halt /\
  exists m',
    read_image_file false file_add_halt blank = Some m' /\
    m' 0x3001 = 0xF025.
Proof.
  assert (Hok : image_ok (0x3000, [0x1025; 0xF025])).
  { unfold image_ok. cbn [fst snd]. change MEM_MAX with 65536.
    split; [lia |]. split; [| simpl; lia].
    repeat constructor; lia. }
  split; [exact Hok |]. split; [reflexivity |].
  destruct (image_round_trip false 0x3000 [0x1025; 0xF025] blank Hok)
    as (m' & Hread & Hwords & _).
  exists m'. split; [exact Hread |].
  exact (Hwords 1%nat (Nat.lt_succ_diag_r 1)).
Defined.

(** ** The start of [main] *)

Lemma load_images_missing (le : bool) (fs : files) (path : string)
  (after : list string) :
  fs path = None ->
  forall before m,
    Forall (fun p => fs p <> None) before ->
    load_images le fs (before ++ path :: after) m = inl path.
Proof.
  intros Hpath before. induction before as [| p before IH]; intros m Hbefore.
  - simpl. unfold read_image. now rewrite Hpath.
  - inversion Hbefore as [| ? ? Hp Hrest]; subst.
    simpl. unfold read_image.
    destruct (fs p) as [file |]; [| contradiction].
    simpl. now apply IH.
Qed.

Lemma load_ext (origin : Z) (words : list Z) (m1 m2 : Z -> Z) :
  (forall a, m1 a = m2 a) ->
  forall a, load origin words m1 a = load origin words m2 a.
Proof.
  intros H a. unfold load. destruct (_ && _); [reflexivity | apply H].
Qed.

Lemma overlay_ext (imgs : list (Z * list Z)) :
  forall m1 m2,
    (forall a, m1 a = m2 a) ->
    forall a, overlay imgs m1 a = overlay imgs m2 a.
Proof.
  induction imgs as [| img imgs IH]; intros m1 m2 H a.
  - apply H.
  - unfold overlay. cbn [fold_left]. apply IH. now apply load_ext.
Qed.

Lemma load_images_present (le : bool) (fs : files) (paths : list string)
  (imgs : list (Z * list Z)) :
  Forall2 (fun path img =>
             fs path = Some (encode_image (fst img) (snd img)) /\ image_ok img)
          paths imgs ->
  forall m,
  exists m',
    load_images le fs paths (Some m) = inr (Some m') /\
    forall a, m' a = overlay imgs m a.
Proof.
  induction 1 as [| path img paths imgs [Hfile Hok] Hrest IH]; intro m.
  - exists m. split; reflexivity.
  - destruct (encoded_image_loads le img m Hok) as (m1 & Hread & Hcells).
    destruct (IH m1) as (m' & Hload & Hover).
    exists m'. split.
    + cbn [load_images]. unfold read_image. rewrite Hfile, Hread.
      exact Hload.
    + intro a. rewrite Hover. unfold overlay at 2. cbn [fold_left].
      now apply overlay_ext.
Qed.

(** X6. The errors at the start of [main]. With no image path on the
    command line the process prints the usage line and exits with status
    2. When one of the image files cannot be opened, while those before it
    can, the process prints [failed to load image:] followed by the path
    of that file and exits with status 1; the files named after it are not
    looked at, and no instruction is executed. *)
Theorem main_startup_errors (le sc : bool) (fs : files) (h : host) (turns : nat) :
  (forall argv,
     (List.length argv < 2)%nat ->
     main le sc fs argv h turns = Exit 2 (put_string usage h)) /\
  (forall prog before path after,
     Forall (fun p => fs p <> None) before ->
     fs path = None ->
     main le sc fs (prog :: before ++ path :: after) h turns =
       Exit 1 (put_string (load_failure path) h)).
Proof.
  split.
  - intros argv Hargc. unfold main.
    destruct (Z.ltb_spec (Z.of_nat (List.length argv)) 2); [reflexivity | lia].
  - intros prog before path after Hbefore Hpath. unfold main.
    destruct (Z.ltb_spec (Z.of_nat (List.length (prog :: before ++ path :: after))) 2)
      as [Hlt | _].
    + rewrite length_cons, length_app, length_cons in Hlt. lia.
    + cbn [tl]. now rewrite (load_images_missing le fs path after Hpath).
Qed.

Lemma main_startup_errors_witness :
  (List.length ["VM"%string] < 2)%nat /\
  main true true disk ["VM"%string] quiet 10 = Exit 2 (put_string usage quiet) /\
  Forall (fun p => disk p <> None) ["add.obj"%string] /\
  disk "lost.obj"%string = None /\
  main true true disk ["VM"; "add.obj"; "lost.obj"; "patch.obj"]%string quiet 10 =
    Exit 1 (put_string (load_failure "lost.obj"%string) quiet).
Proof.
  assert (Hargc : (List.length ["VM"%string] < 2)%nat) by (simpl; lia).
  assert (Hbefore : Forall (fun p => disk p <> None) ["add.obj"%string])
    by (repeat constructor; discriminate).
  assert (Hlost : disk "lost.obj"%string = None) by reflexivity.
  destruct (main_startup_errors true true disk quiet 10) as (Husage & Hfail).
  split; [exact Hargc |]. split; [exact (Husage _ Hargc) |].
  split; [exact Hbefore |]. split; [exact Hlost |].
  exact (Hfail "VM"%string ["add.obj"%string] "lost.obj"%string
               ["patch.obj"%string] Hbefore Hlost).
Defined.

(** X7. When every path on the command line names the file of a
    well-formed image, [main] enters the loop on the machine that [init]
    describes, for the memory obtained from a memory of zeros by copying
    the images in the order of the command line: where two images overlap,
    the later one is what the machine sees. *)
Theorem main_runs_images (le sc : bool) (fs : files) (prog : string)
  (paths : list string) (imgs : list (Z * list Z)) (h : host) (turns : nat) :
  paths <> [] ->
  Forall2 (fun path img =>
             fs path = Some (encode_image (fst img) (snd img)) /\ image_ok img)
          paths imgs ->
  exists image,
    main le sc fs (prog :: paths) h turns = Loop (run sc turns (init image h)) /\
    forall a, image a = overlay imgs blank a.
Proof.
  intros Hne Hfiles.
  destruct (load_images_present le fs paths imgs Hfiles (fun _ => 0))
    as (image & Hload & Hover).
  exists image. split; [| exact Hover].
  unfold main.
  destruct (Z.ltb_spec (Z.of_nat (List.length (prog :: paths))) 2) as [Hlt | _].
  - destruct paths; [contradiction | simpl in Hlt; lia].
  - cbn [tl]. now rewrite Hload.
Qed.

Lemma main_runs_images_witness :
  exists image,
    main true true disk ["VM"; "add.obj"; "patch.obj"]%string quiet 10 =
      Loop (run true 10 (init image quiet)) /\
    image 0x3000 = 0x1027 /\ image 0x3001 = 0xF025.
Proof.
  assert (Hne : ["add.obj"; "patch.obj"]%string <> []) by discriminate.
  assert (Hfiles :
            Forall2 (fun path img =>
                       disk path = Some (encode_image (fst img) (snd img)) /\
                       image_ok img)
                    ["add.obj"; "patch.obj"]%string
                    [(0x3000, [0x1025; 0xF025]); (0x3000, [0x1027])]).
  { repeat constructor; cbn [fst snd List.length];
      change MEM_MAX with 65536; lia. }
  destruct (main_runs_images true true disk "VM"%string
              ["add.obj"; "patch.obj"]%string
              [(0x3000, [0x1025; 0xF025]); (0x3000, [0x1027])] quiet 10
              Hne Hfiles) as (image & Hmain & Himage).
  exists image. split; [exact Hmain |].
  rewrite !Himage. vm_compute. split; reflexivity.
Defined.

(** ** The machine computes with 16-bit words *)

Lemma words_only_upd (f : Z -> Z) (k v : Z) :
  words_only f -> 0 <= v < MEM_MAX -> words_only (upd f k v).
Proof.
  intros Hf Hv a. unfold upd. destruct (a =? k); [exact Hv | apply Hf].
Qed.

Lemma wf_set_reg (s : state) (r v : Z) :
  wf s -> 0 <= v < MEM_MAX -> wf (set_reg s r v).
Proof.
  intros [Hm Hr] Hv. split; [exact Hm |]. now apply words_only_upd.
Qed.

Lemma wf_set_mem (s : state) (a v : Z) :
  wf s -> 0 <= v < MEM_MAX -> wf (set_mem s a v).
Proof.
  intros [Hm Hr] Hv. split; [| exact Hr]. now apply words_only_upd.
Qed.

Lemma wf_set_io (s : state) (h : host) : wf s -> wf (set_io s h).
Proof. intros [Hm Hr]. now split. Qed.

Lemma wf_reg (s : state) (r : Z) : wf s -> 0 <= reg s r < MEM_MAX.
Proof. intros [_ Hr]. apply Hr. Qed.

Lemma wf_mem (s : state) (a : Z) : wf s -> 0 <= mem s a < MEM_MAX.
Proof. intros [Hm _]. apply Hm. Qed.

Lemma flag_range (s : state) (r : Z) : wf s -> wf (update_flags r s).
Proof.
  intro Hwf. unfold update_flags.
  destruct (reg s r =? 0); [| destruct (negb _)];
    apply wf_set_reg; try assumption; vm_compute; split; discriminate || reflexivity.
Qed.

Lemma wf_mem_read (a : Z) (s : state) :
  wf s ->
  wf (snd (mem_read a s)) /\ 0 <= fst (mem_read a s) < MEM_MAX.
Proof.
  intro Hwf.
  assert (Hs : wf (snd (mem_read a s))).
  { unfold mem_read. cbn [snd].
    destruct (a =? MR_KBSR); [| exact Hwf].
    destruct (check_key (io s)).
    - cbn [io set_mem]. destruct (getchar (io s)) as [c h].
      apply wf_set_mem; [| apply u16_range].
      apply wf_set_io, wf_set_mem; [exact Hwf |].
      vm_compute. split; discriminate || reflexivity.
    - apply wf_set_mem; [exact Hwf |].
      vm_compute. split; discriminate || reflexivity. }
  split; [exact Hs |].
  unfold mem_read in *. cbn [fst snd] in *. now apply wf_mem.
Qed.

(** Close a goal [wf _] or a range from the facts at hand. *)
Ltac words :=
  repeat first
    [ assumption
    | apply u16_range
    | apply flag_range
    | apply wf_set_io
    | apply wf_set_reg
    | apply wf_set_mem
    | apply wf_reg
    | apply wf_mem ].

(** Name the result of a [mem_read] and keep what is known of it. *)
Ltac read_word Hwf :=
  match goal with
  | |- context [mem_read ?a ?s] =>
      let v := fresh "v" in
      let s' := fresh "s" in
      let Hv := fresh "Hv" in
      let Hs := fresh "Hwf" in
      destruct (wf_mem_read a s Hwf) as [Hs Hv];
      destruct (mem_read a s) as [v s'];
      cbn [fst snd] in Hs, Hv
  end.

Lemma op_trap_words (sc : bool) (instr : Z) (s : state) :
  wf s -> wf (state_of (op_trap sc instr s)).
Proof.
  intro Hwf. unfold op_trap. cbv zeta.
  assert (H7 : wf (set_reg s R_R7 (reg s R_PC))) by words.
  destruct (Z.land instr 255) as [| p | p];
    [| switch_on p |];
    repeat match goal with
           | |- context [if ?b then _ else _] => destruct b
           | |- context [let (_, _) := ?x in _] => destruct x
           | |- context [match ?x with Some _ => _ | None => _ end] => destruct x
           end;
    cbn [state_of]; words.
Qed.

Lemma execute_words (sc : bool) (instr : Z) (s : state) :
  wf s -> wf (state_of (execute sc instr s)).
Proof.
  intro Hwf. unfold execute. cbv zeta.
  destruct (Z.shiftr instr 12) as [| p | p];
    [| switch_on p |];
    try exact Hwf;
    try (now apply op_trap_words);
    unfold op_add, op_and, op_not, op_br, op_jmp, op_jsr, op_ld, op_ldi, op_ldr,
      op_lea, op_st, op_sti, op_str, mem_write; cbv zeta;
    repeat match goal with
           | |- context [if ?b then _ else _] => destruct b
           end;
    try read_word Hwf;
    try match goal with
        | H : wf ?s |- context [mem_read ?a ?s] => read_word H
        end;
    cbn [state_of]; words.
Qed.

Lemma init_words (image : Z -> Z) (h : host) :
  words_only image -> wf (init image h).
Proof.
  intro Himage. split; [exact Himage |].
  cbn [reg init]. repeat apply words_only_upd;
    try intro a; vm_compute; split; discriminate || reflexivity.
Qed.

(** X8. A machine whose memory and registers hold 16-bit words keeps doing
    so: after any instruction, however the turn ends, and after any number
    of turns, every memory cell and every register is a word below 2^16.
    The machine that [main] sets up on a memory of words is of this kind. *)
Theorem words_are_kept (sc : bool) (s : state) :
  wf s ->
  wf (state_of (step sc s)) /\
  (forall n, wf (state_of (run sc n s))) /\
  (forall image h, words_only image -> wf (init image h)).
Proof.
  intro Hwf.
  assert (Hstep : forall s0, wf s0 -> wf (state_of (step sc s0))).
  { intros s0 H0. rewrite step_fetch_execute. apply execute_words.
    unfold fetch. apply wf_mem_read. words. }
  split; [now apply Hstep |]. split.
  - intro n. revert s Hwf. induction n as [| n IH]; intros s Hwf.
    + exact Hwf.
    + cbn [run]. pose proof (Hstep s Hwf) as H1.
      destruct (step sc s); cbn [state_of] in *; auto.
  - intros image h. apply init_words.
Qed.

Lemma words_are_kept_witness :
  wf (boot prog_imm quiet) /\
  0 <= reg (state_of (run true 2 (boot prog_imm quiet))) R_R0 < MEM_MAX.
Proof.
  assert (Hwf : wf (boot prog_imm quiet)).
  { apply init_words, load_words_only; [| exact words_only_blank].
    change MEM_MAX with 65536. repeat constructor; lia. }
  split; [exact Hwf |].
  destruct (words_are_kept true (boot prog_imm quiet) Hwf) as (_ & Hrun & _).
  apply (Hrun 2%nat).
Defined.

(** ** Subroutine calls: JSR, JSRR and JMP *)

(** An instruction other than BR and RTI was fetched from passive storage:
    it is the word under the PC, and it runs on the state in which only
    the PC has advanced. *)
Lemma step_passive (sc : bool) (s : state) :
  Z.shiftr (fst (fetch s)) 12 <> OP_BR ->
  Z.shiftr (fst (fetch s)) 12 <> OP_RTI ->
  fst (fetch s) = mem s (reg s R_PC) /\
  step sc s =
    execute sc (fst (fetch s)) (set_reg s R_PC (u16 (reg s R_PC + 1))).
Proof.
  intros Hbr Hrti. rewrite step_fetch_execute.
  now rewrite (fetch_of_opcode s Hbr Hrti).
Qed.

(** Rewrite a turn of the loop into the handler of the opcode [op], given
    [Hop : Z.shiftr (fst (fetch s)) 12 = op]. *)
Ltac enter_handler sc s Hop :=
  let Hstep := fresh "Hstep" in
  destruct (step_passive sc s) as [_ Hstep];
  [ rewrite Hop; discriminate | rewrite Hop; discriminate | ];
  rewrite Hstep; clear Hstep; dispatch Hop.

(** X9. JSR and JSRR leave the address of the next instruction in R7, in
    both addressing modes, and touch no other general register, no memory
    word and nothing on the terminal. In the long mode the PC becomes the
    next address plus the sign-extended 11-bit offset; in the register
    mode it becomes the value of the base register, read after R7 has been
    written: with R7 as base register the jump goes to the return address
    just saved, that is, to the next instruction. *)
Theorem jsr_saves_return (sc : bool) (s : state) :
  let instr := fst (fetch s) in
  let pc := u16 (reg s R_PC + 1) in
  let s' := state_of (step sc s) in
  Z.shiftr instr 12 = OP_JSR ->
  is_running (step sc s) = true /\
  reg s' R_R7 = pc /\
  (Z.land (Z.shiftr instr 11) 1 = 1 ->
   reg s' R_PC = u16 (pc + sign_extend (Z.land instr 0x7FF) 11)) /\
  (Z.land (Z.shiftr instr 11) 1 = 0 -> SR1 instr <> R_R7 ->
   reg s' R_PC = reg s (SR1 instr)) /\
  (Z.land (Z.shiftr instr 11) 1 = 0 -> SR1 instr = R_R7 -> reg s' R_PC = pc) /\
  (forall r, 0 <= r < 7 -> reg s' r = reg s r) /\
  reg s' R_COND = reg s R_COND /\
  mem s' = mem s /\ io s' = io s.
Proof.
  intros instr pc s' Hop. unfold s'. unfold instr in Hop.
  enter_handler sc s Hop. fold instr pc. unfold op_jsr. cbv zeta.
  pose proof (SR1_range instr) as Hsr.
  destruct (Z.eqb_spec (Z.land (Z.shiftr instr 11) 1) 0) as [Hlong | Hlong];
    cbn [negb state_of is_running reg mem io set_reg];
    (split; [reflexivity |]); (split; [reflexivity |]);
    (split; [intro H1; try lia; reflexivity |]);
    (split; [intros H1 H2; try lia;
             rewrite upd_same, !upd_other by (unfold R_PC, R_R7 in *; lia);
             reflexivity |]);
    (split; [intros H1 H2; try lia; rewrite H2; reflexivity |]);
    (split; [intros r Hr; now rewrite !upd_other by (unfold R_PC, R_R7; lia) |]);
    repeat split.
Qed.

Lemma jsr_saves_return_witness :
  Z.shiftr (fst (fetch (boot prog_jsrr_r7 quiet))) 12 = OP_JSR /\
  SR1 (fst (fetch (boot prog_jsrr_r7 quiet))) = R_R7 /\
  reg (boot prog_jsrr_r7 quiet) R_R7 = 0 /\
  reg (state_of (step true (boot prog_jsrr_r7 quiet))) R_R7 = 0x3001 /\
  reg (state_of (step true (boot prog_jsrr_r7 quiet))) R_PC = 0x3001.
Proof.
  assert (Hop : Z.shiftr (fst (fetch (boot prog_jsrr_r7 quiet))) 12 = OP_JSR)
    by (vm_compute; reflexivity).
  assert (Hbase : SR1 (fst (fetch (boot prog_jsrr_r7 quiet))) = R_R7)
    by (vm_compute; reflexivity).
  split; [exact Hop |]. split; [exact Hbase |]. split; [reflexivity |].
  destruct (jsr_saves_return true (boot prog_jsrr_r7 quiet) Hop)
    as (_ & H7 & _ & _ & Hself & _).
  split; [exact H7 |].
  apply Hself; [vm_compute; reflexivity | exact Hbase].
Defined.

Lemma jsr_r7 (sc : bool) (s : state) :
  Z.shiftr (fst (fetch s)) 12 = OP_JSR ->
  reg (state_of (step sc s)) R_R7 = u16 (reg s R_PC + 1).
Proof.
  intro Hop. enter_handler sc s Hop. unfold op_jsr. cbv zeta.
  destruct (negb _); reflexivity.
Qed.

(** X10. JMP puts the value of its base register in the PC and changes
    nothing else. With R7 as base register it is the return from a
    subroutine: if R7 still holds what a JSR or JSRR left there, execution
    continues at the instruction that follows that call. *)
Theorem jmp_and_return (sc : bool) (s : state) :
  let instr := fst (fetch s) in
  let s' := state_of (step sc s) in
  Z.shiftr instr 12 = OP_JMP ->
  is_running (step sc s) = true /\
  reg s' R_PC = reg s (SR1 instr) /\
  (forall r, r <> R_PC -> reg s' r = reg s r) /\
  mem s' = mem s /\ io s' = io s /\
  (forall call : state,
     Z.shiftr (fst (fetch call)) 12 = OP_JSR ->
     reg s R_R7 = reg (state_of (step sc call)) R_R7 ->
     SR1 instr = R_R7 ->
     reg s' R_PC = u16 (reg call R_PC + 1)).
Proof.
  intros instr s' Hop. unfold s'. unfold instr in Hop.
  assert (Hpc : reg (state_of (step sc s)) R_PC = reg s (SR1 instr)).
  { enter_handler sc s Hop. fold instr. unfold op_jmp.
    cbn [state_of reg set_reg]. rewrite upd_same. apply upd_other.
    pose proof (SR1_range instr). unfold R_PC. lia. }
  split; [| split; [exact Hpc | split; [| split; [| split]]]].
  - enter_handler sc s Hop. reflexivity.
  - intros r Hr. enter_handler sc s Hop. unfold op_jmp.
    cbn [state_of reg set_reg]. now rewrite !upd_other.
  - enter_handler sc s Hop. reflexivity.
  - enter_handler sc s Hop. reflexivity.
  - intros call Hcall H7 Hbase. rewrite Hpc, Hbase, H7.
    now apply jsr_r7.
Qed.

Lemma jmp_and_return_witness :
  Z.shiftr (fst (fetch at_return)) 12 = OP_JMP /\
  Z.shiftr (fst (fetch (boot prog_call quiet))) 12 = OP_JSR /\
  reg at_return R_PC = 0x3002 /\
  reg (state_of (step true at_return)) R_PC = 0x3001.
Proof.
  assert (Hop : Z.shiftr (fst (fetch at_return)) 12 = OP_JMP)
    by (vm_compute; reflexivity).
  assert (Hcall : Z.shiftr (fst (fetch (boot prog_call quiet))) 12 = OP_JSR)
    by (vm_compute; reflexivity).
  split; [exact Hop |]. split; [exact Hcall |].
  split; [vm_compute; reflexivity |].
  destruct (jmp_and_return true at_return Hop) as (_ & _ & _ & _ & _ & Hret).
  rewrite (Hret (boot prog_call quiet) Hcall);
    vm_compute; reflexivity.
Defined.

(** ** NOT *)

Lemma lnot_word (v : Z) : 0 <= v < MEM_MAX -> u16 (Z.lnot v) = 0xFFFF - v.
Proof.
  intro Hv. unfold u16, Z.lnot. change MEM_MAX with 65536 in *.
  Z.div_mod_to_equations; lia.
Qed.

(** X11. NOT leaves in the destination register the bitwise complement of
    the source word, 0xFFFF minus that word, sets the flags from it, and
    changes no other general register, no memory word and nothing on the
    terminal; complementing twice gives the word back. *)
Theorem not_complements (sc : bool) (s : state) :
  let instr := fst (fetch s) in
  let v := reg s (SR1 instr) in
  let s' := state_of (step sc s) in
  Z.shiftr instr 12 = OP_NOT ->
  0 <= v < MEM_MAX ->
  is_running (step sc s) = true /\
  reg s' (DR instr) = 0xFFFF - v /\
  reg s' R_COND = flag_of (0xFFFF - v) /\
  u16 (Z.lnot (0xFFFF - v)) = v /\
  (forall r, 0 <= r < 8 -> r <> DR instr -> reg s' r = reg s r) /\
  reg s' R_PC = u16 (reg s R_PC + 1) /\
  mem s' = mem s /\ io s' = io s.
Proof.
  intros instr v s' Hop Hv. unfold s'. unfold instr in Hop.
  enter_handler sc s Hop. fold instr. unfold op_not. cbv zeta.
  pose proof (DR_range instr) as Hdr. pose proof (SR1_range instr) as Hsr.
  assert (Hsrc : reg (set_reg s R_PC (u16 (reg s R_PC + 1))) (SR1 instr) = v).
  { cbn [reg set_reg]. apply upd_other. unfold R_PC. lia. }
  rewrite Hsrc, (lnot_word v Hv). cbn [state_of is_running].
  split; [reflexivity |].
  split; [now apply loaded_register |].
  split.
  { rewrite update_flags_cond; cbn [reg set_reg]; rewrite upd_same;
      [reflexivity | change MEM_MAX with 65536 in *; lia]. }
  split.
  { rewrite lnot_word by (change MEM_MAX with 65536 in *; lia). lia. }
  split.
  { intros r Hr Hne.
    rewrite update_flags_reg by (unfold R_COND; lia).
    cbn [reg set_reg]. now rewrite !upd_other by (unfold R_PC; lia). }
  split.
  { rewrite update_flags_reg by discriminate.
    cbn [reg set_reg]. rewrite upd_other by (unfold R_PC; lia).
    apply upd_same. }
  split; [now rewrite update_flags_mem | now rewrite update_flags_io].
Qed.

Lemma not_complements_witness :
  Z.shiftr (fst (fetch (boot prog_not quiet))) 12 = OP_NOT /\
  0 <= reg (boot prog_not quiet) (SR1 (fst (fetch (boot prog_not quiet)))) < MEM_MAX /\
  reg (state_of (step true (boot prog_not quiet))) R_R1 = 0xFFFF /\
  reg (state_of (step true (boot prog_not quiet))) R_COND = FL_NEG.
Proof.
  assert (Hop : Z.shiftr (fst (fetch (boot prog_not quiet))) 12 = OP_NOT)
    by (vm_compute; reflexivity).
  assert (Hv : 0 <= reg (boot prog_not quiet)
                        (SR1 (fst (fetch (boot prog_not quiet)))) < MEM_MAX)
    by (vm_compute; split; discriminate || reflexivity).
  split; [exact Hop |]. split; [exact Hv |].
  destruct (not_complements true (boot prog_not quiet) Hop Hv)
    as (_ & Hdr & Hfl & _).
  split; [exact Hdr | exact Hfl].
Defined.

(** ** What an instruction leaves alone *)

Lemma mem_read_cells (a : Z) (s : state) (x : Z) :
  x <> MR_KBSR -> x <> MR_KBDR -> mem (snd (mem_read a s)) x = mem s x.
Proof.
  intros Hs Hd. unfold mem_read. cbn [snd].
  destruct (a =? MR_KBSR); [| reflexivity].
  destruct (check_key (io s)).
  - cbn [io set_mem]. destruct (getchar (io s)) as [c h].
    cbn [mem set_mem set_io]. now rewrite !upd_other.
  - cbn [mem set_mem]. now rewrite upd_other.
Qed.

Lemma op_trap_mem (sc : bool) (instr : Z) (s : state) :
  mem (state_of (op_trap sc instr s)) = mem s.
Proof.
  unfold op_trap. cbv zeta.
  destruct (Z.land instr 255) as [| p | p];
    [| switch_on p |];
    repeat match goal with
           | |- context [if ?b then _ else _] => destruct b
           | |- context [let (_, _) := ?x in _] => destruct x
           | |- context [match ?x with Some _ => _ | None => _ end] => destruct x
           end;
    reflexivity.
Qed.

(** Name the result of the first [mem_read] of the goal, keeping what it
    leaves alone. *)
Ltac read_frame :=
  match goal with
  | |- context [mem_read ?a ?s] =>
      let v := fresh "v" in
      let s' := fresh "s" in
      let Hc := fresh "Hcells" in
      let Hr := fresh "Hregs" in
      pose proof (mem_read_cells a s) as Hc;
      pose proof (mem_read_reg a s) as Hr;
      destruct (mem_read a s) as [v s'];
      cbn [fst snd] in Hc, Hr
  end.

(** Outside the store instructions, a handler leaves every cell other than
    the two keyboard registers as it was; outside the jumps, it leaves the
    PC as it was. *)
Ltac frame :=
  unfold op_add, op_and, op_not, op_br, op_jmp, op_jsr, op_ld, op_ldi, op_ldr,
    op_lea, op_st, op_sti, op_str, mem_write; cbv zeta;
  repeat match goal with
         | |- context [if ?b then _ else _] => destruct b
         end;
  repeat read_frame;
  cbn [state_of];
  rewrite ?update_flags_mem, ?update_flags_reg by discriminate;
  cbn [mem reg set_reg set_mem set_io];
  repeat match goal with
         | H : forall x, _ -> _ -> mem _ x = _ |- _ => rewrite H by assumption
         | H : reg _ = _ |- _ => rewrite H
         end;
  rewrite ?upd_other by (first [ assumption | discriminate ]);
  try reflexivity.

Lemma execute_cells (sc : bool) (instr : Z) (s : state) (x : Z) :
  stores (Z.shiftr instr 12) = false ->
  x <> MR_KBSR -> x <> MR_KBDR ->
  mem (state_of (execute sc instr s)) x = mem s x.
Proof.
  intros Hop Hs Hd. unfold execute. cbv zeta.
  destruct (Z.shiftr instr 12) as [| p | p];
    [| switch_on p |];
    try discriminate Hop;
    try (now rewrite op_trap_mem);
    frame.
Qed.

Lemma execute_pc (sc : bool) (instr : Z) (s : state) :
  jumps (Z.shiftr instr 12) = false ->
  reg (state_of (execute sc instr s)) R_PC = reg s R_PC.
Proof.
  intro Hop. unfold execute. cbv zeta.
  pose proof (DR_range instr) as Hdr.
  assert (Hne : R_PC <> DR instr) by (unfold R_PC; lia).
  destruct (Z.shiftr instr 12) as [| p | p];
    [| switch_on p |];
    try discriminate Hop;
    try (now apply op_trap_reg);
    frame.
Qed.

(** X12. Only ST, STI and STR write to memory: after any other
    instruction, however the turn ends, every cell other than the two
    keyboard registers holds what it held before the fetch. *)
Theorem only_stores_write_memory (sc : bool) (s : state) (x : Z) :
  stores (Z.shiftr (fst (fetch s)) 12) = false ->
  x <> MR_KBSR -> x <> MR_KBDR ->
  mem (state_of (step sc s)) x = mem s x.
Proof.
  intros Hop Hs Hd. rewrite step_fetch_execute.
  rewrite execute_cells by assumption.
  unfold fetch. now rewrite mem_read_cells.
Qed.

Lemma only_stores_write_memory_witness :
  stores (Z.shiftr (fst (fetch at_kbsr)) 12) = false /\
  mem (state_of (step true at_kbsr)) 0x3000 = mem at_kbsr 0x3000 /\
  mem (state_of (step true at_kbsr)) MR_KBSR <> mem at_kbsr MR_KBSR.
Proof.
  assert (Hop : stores (Z.shiftr (fst (fetch at_kbsr)) 12) = false)
    by (vm_compute; reflexivity).
  split; [exact Hop |]. split.
  - apply (only_stores_write_memory true at_kbsr 0x3000 Hop); discriminate.
  - vm_compute. discriminate.
Defined.

(** X13. Only BR, JMP and JSR set the PC: after any other instruction,
    however the turn ends, the PC is the address of the fetched instruction
    plus one, modulo 2^16, so that execution runs on from 0xFFFF to 0. *)
Theorem pc_advances (sc : bool) (s : state) :
  jumps (Z.shiftr (fst (fetch s)) 12) = false ->
  reg (state_of (step sc s)) R_PC = u16 (reg s R_PC + 1) /\
  (reg s R_PC = 0xFFFF -> reg (state_of (step sc s)) R_PC = 0).
Proof.
  intro Hop.
  assert (Hpc : reg (state_of (step sc s)) R_PC = u16 (reg s R_PC + 1)).
  { rewrite step_fetch_execute, execute_pc by assumption. apply fetch_pc. }
  split; [exact Hpc |]. intro Htop. now rewrite Hpc, Htop.
Qed.

Lemma pc_advances_witness :
  jumps (Z.shiftr (fst (fetch at_top)) 12) = false /\
  reg at_top R_PC = 0xFFFF /\
  reg (state_of (step true at_top)) R_PC = 0 /\
  reg (state_of (step true at_top)) R_R0 = 5.
Proof.
  assert (Hop : jumps (Z.shiftr (fst (fetch at_top)) 12) = false)
    by (vm_compute; reflexivity).
  assert (Htop : reg at_top R_PC = 0xFFFF) by (vm_compute; reflexivity).
  split; [exact Hop |]. split; [exact Htop |].
  split; [| vm_compute; reflexivity].
  exact (proj2 (pc_advances true at_top Hop) Htop).
Defined.

(** ** Loads and stores *)

Lemma flag_of_loaded (r v : Z) (s : state) :
  0 <= v < MEM_MAX ->
  reg (update_flags r (set_reg s r v)) R_COND = flag_of v.
Proof.
  intro Hv. rewrite update_flags_cond; cbn [reg set_reg]; rewrite upd_same;
    [reflexivity | exact Hv].
Qed.

(** X14. LD and LDR read one word through the memory read contract, LD at
    the incremented PC plus the sign-extended 9-bit offset, LDR at the base
    register plus the sign-extended 6-bit offset, both modulo 2^16; the
    word goes to the destination register and the flags are set from it.
    When the address is not the keyboard-status address the word is the
    one stored there, and memory and terminal are as before. LEA computes
    the same address as LD and leaves the address itself in the register,
    without reading memory, whatever the address. *)
Theorem loads_read_one_word (sc : bool) (s : state) :
  let instr := fst (fetch s) in
  let pc := u16 (reg s R_PC + 1) in
  let s1 := set_reg s R_PC pc in
  let s' := state_of (step sc s) in
  let a_pc := u16 (pc + sign_extend (Z.land instr 0x1FF) 9) in
  let a_base := u16 (reg s (SR1 instr) + sign_extend (Z.land instr 0x3F) 6) in
  (Z.shiftr instr 12 = OP_LD ->
   step sc s =
     Running (update_flags (DR instr)
                (set_reg (snd (mem_read a_pc s1)) (DR instr) (fst (mem_read a_pc s1)))) /\
   (a_pc <> MR_KBSR ->
    reg s' (DR instr) = mem s a_pc /\ mem s' = mem s /\ io s' = io s /\
    (0 <= mem s a_pc < MEM_MAX -> reg s' R_COND = flag_of (mem s a_pc)))) /\
  (Z.shiftr instr 12 = OP_LDR ->
   step sc s =
     Running (update_flags (DR instr)
                (set_reg (snd (mem_read a_base s1)) (DR instr)
                         (fst (mem_read a_base s1)))) /\
   (a_base <> MR_KBSR ->
    reg s' (DR instr) = mem s a_base /\ mem s' = mem s /\ io s' = io s /\
    (0 <= mem s a_base < MEM_MAX -> reg s' R_COND = flag_of (mem s a_base)))) /\
  (Z.shiftr instr 12 = OP_LEA ->
   step sc s = Running (update_flags (DR instr) (set_reg s1 (DR instr) a_pc)) /\
   reg s' (DR instr) = a_pc /\ reg s' R_COND = flag_of a_pc /\
   mem s' = mem s /\ io s' = io s).
Proof.
  intros instr pc s1 s' a_pc a_base.
  pose proof (DR_range instr) as Hdr. pose proof (SR1_range instr) as Hsr.
  assert (Hpc : reg s1 R_PC = pc) by apply upd_same.
  assert (Hbase : reg s1 (SR1 instr) = reg s (SR1 instr)).
  { cbn [reg set_reg s1]. apply upd_other. unfold R_PC. lia. }
  split; [| split].
  - intro Hop. unfold instr in Hop.
    assert (Hstep : step sc s =
              Running (update_flags (DR instr)
                (set_reg (snd (mem_read a_pc s1)) (DR instr)
                         (fst (mem_read a_pc s1))))).
    { enter_handler sc s Hop. fold instr pc s1.
      rewrite op_ld_eq, Hpc. reflexivity. }
    split; [exact Hstep |]. intro Ha.
    unfold s'. rewrite Hstep. cbn [state_of].
    rewrite (mem_read_passive a_pc s1 Ha). cbn [fst snd].
    split; [now apply loaded_register |].
    split; [now rewrite update_flags_mem |].
    split; [now rewrite update_flags_io |].
    apply flag_of_loaded.
  - intro Hop. unfold instr in Hop.
    assert (Hstep : step sc s =
              Running (update_flags (DR instr)
                (set_reg (snd (mem_read a_base s1)) (DR instr)
                         (fst (mem_read a_base s1))))).
    { enter_handler sc s Hop. fold instr pc s1. unfold op_ldr. cbv zeta.
      rewrite Hbase. fold a_base.
      destruct (mem_read a_base s1). reflexivity. }
    split; [exact Hstep |]. intro Ha.
    unfold s'. rewrite Hstep. cbn [state_of].
    rewrite (mem_read_passive a_base s1 Ha). cbn [fst snd].
    split; [now apply loaded_register |].
    split; [now rewrite update_flags_mem |].
    split; [now rewrite update_flags_io |].
    apply flag_of_loaded.
  - intro Hop. unfold instr in Hop.
    assert (Hstep : step sc s =
              Running (update_flags (DR instr) (set_reg s1 (DR instr) a_pc))).
    { enter_handler sc s Hop. fold instr pc s1. unfold op_lea. cbv zeta.
      now rewrite Hpc. }
    split; [exact Hstep |].
    unfold s'. rewrite Hstep. cbn [state_of].
    split; [now apply loaded_register |].
    split; [apply flag_of_loaded, u16_range |].
    split; [now rewrite update_flags_mem | now rewrite update_flags_io].
Qed.

Lemma loads_read_one_word_witness :
  Z.shiftr (fst (fetch (boot prog_puts quiet))) 12 = OP_LD /\
  mem (boot prog_puts quiet) 0x3002 = 0xFDFF /\
  reg (state_of (step true (boot prog_puts quiet))) R_R0 = 0xFDFF.
Proof.
  assert (Hop : Z.shiftr (fst (fetch (boot prog_puts quiet))) 12 = OP_LD)
    by (vm_compute; reflexivity).
  split; [exact Hop |]. split; [vm_compute; reflexivity |].
  destruct (loads_read_one_word true (boot prog_puts quiet)) as (Hld & _).
  destruct (Hld Hop) as (_ & Hpassive).
  destruct Hpassive as (Hreg & _); [vm_compute; discriminate |].
  etransitivity; [exact Hreg | vm_compute; reflexivity].
Defined.

Lemma step_str (sc : bool) (s : state) :
  Z.shiftr (fst (fetch s)) 12 = OP_STR ->
  step sc s =
    Running (set_mem (set_reg s R_PC (u16 (reg s R_PC + 1)))
               (u16 (reg s (SR1 (fst (fetch s)))
                     + sign_extend (Z.land (fst (fetch s)) 0x3F) 6))
               (reg s (DR (fst (fetch s))))).
Proof.
  intro Hop. enter_handler sc s Hop. unfold op_str, mem_write. cbv zeta.
  pose proof (DR_range (fst (fetch s))). pose proof (SR1_range (fst (fetch s))).
  cbn [reg set_reg]. now rewrite !upd_other by (unfold R_PC; lia).
Qed.

Lemma step_st (sc : bool) (s : state) :
  Z.shiftr (fst (fetch s)) 12 = OP_ST ->
  step sc s =
    Running (set_mem (set_reg s R_PC (u16 (reg s R_PC + 1)))
               (u16 (u16 (reg s R_PC + 1)
                     + sign_extend (Z.land (fst (fetch s)) 0x1FF) 9))
               (reg s (DR (fst (fetch s))))).
Proof.
  intro Hop. enter_handler sc s Hop. unfold op_st, mem_write. cbv zeta.
  pose proof (DR_range (fst (fetch s))).
  cbn [reg set_reg]. now rewrite upd_same, upd_other by (unfold R_PC; lia).
Qed.

Lemma step_sti (sc : bool) (s : state) :
  Z.shiftr (fst (fetch s)) 12 = OP_STI ->
  let s1 := set_reg s R_PC (u16 (reg s R_PC + 1)) in
  let a := u16 (u16 (reg s R_PC + 1)
                + sign_extend (Z.land (fst (fetch s)) 0x1FF) 9) in
  step sc s =
    Running (set_mem (snd (mem_read a s1)) (fst (mem_read a s1))
                     (reg s (DR (fst (fetch s))))).
Proof.
  intros Hop s1 a. enter_handler sc s Hop. fold s1.
  unfold op_sti, mem_write. cbv zeta.
  pose proof (DR_range (fst (fetch s))).
  replace (reg s1 R_PC) with (u16 (reg s R_PC + 1)) by (symmetry; apply upd_same).
  fold a. pose proof (mem_read_reg a s1) as Hr.
  destruct (mem_read a s1) as [p s2]. cbn [fst snd] in *.
  rewrite Hr. cbn [reg set_reg s1]. now rewrite upd_other by (unfold R_PC; lia).
Qed.

(** X15. A store writes the word of its source register into exactly one
    cell: ST at the incremented PC plus the sign-extended 9-bit offset, STR
    at the base register plus the sign-extended 6-bit offset, STI at the
    address that the memory read contract returns for the cell ST would
    write. No register other than the PC changes, the flags included. *)
Theorem stores_write_one_cell (sc : bool) (s : state) :
  let instr := fst (fetch s) in
  let pc := u16 (reg s R_PC + 1) in
  let s1 := set_reg s R_PC pc in
  let s' := state_of (step sc s) in
  let v := reg s (DR instr) in
  let a_pc := u16 (pc + sign_extend (Z.land instr 0x1FF) 9) in
  let a_base := u16 (reg s (SR1 instr) + sign_extend (Z.land instr 0x3F) 6) in
  (Z.shiftr instr 12 = OP_ST -> step sc s = Running (set_mem s1 a_pc v)) /\
  (Z.shiftr instr 12 = OP_STR -> step sc s = Running (set_mem s1 a_base v)) /\
  (Z.shiftr instr 12 = OP_STI ->
   step sc s = Running (set_mem (snd (mem_read a_pc s1)) (fst (mem_read a_pc s1)) v) /\
   (a_pc <> MR_KBSR -> step sc s = Running (set_mem s1 (mem s a_pc) v))) /\
  (stores (Z.shiftr instr 12) = true ->
   is_running (step sc s) = true /\
   forall r, r <> R_PC -> reg s' r = reg s r).
Proof.
  intros instr pc s1 s' v a_pc a_base.
  split; [exact (step_st sc s) |].
  split; [exact (step_str sc s) |].
  split.
  - intro Hop. pose proof (step_sti sc s Hop) as Hsti. cbv zeta in Hsti.
    split; [exact Hsti |]. intro Ha.
    rewrite Hsti. unfold a_pc, s1, pc, instr in Ha |- *.
    now rewrite (mem_read_passive _ _ Ha).
  - intro Hst. unfold stores in Hst. cbn [existsb] in Hst.
    fold instr in Hst |- *.
    destruct (Z.eqb_spec (Z.shiftr instr 12) OP_ST) as [Hop | _];
      [| destruct (Z.eqb_spec (Z.shiftr instr 12) OP_STI) as [Hop | _];
         [| destruct (Z.eqb_spec (Z.shiftr instr 12) OP_STR) as [Hop | _];
            [| discriminate Hst]]];
      unfold s'.
    + rewrite (step_st sc s Hop). split; [reflexivity |].
      intros r Hr. cbn [state_of reg set_mem set_reg]. now apply upd_other.
    + pose proof (step_sti sc s Hop) as Hsti. cbv zeta in Hsti.
      rewrite Hsti. split; [reflexivity |].
      intros r Hr. cbn [state_of reg set_mem]. rewrite mem_read_reg.
      cbn [reg set_reg]. now apply upd_other.
    + rewrite (step_str sc s Hop). split; [reflexivity |].
      intros r Hr. cbn [state_of reg set_mem set_reg]. now apply upd_other.
Qed.

Lemma stores_write_one_cell_witness :
  Z.shiftr (fst (fetch at_store)) 12 = OP_STR /\
  reg at_store R_R0 = 7 /\ reg at_store R_R1 = 0 /\ mem at_store 0 = 0 /\
  mem (state_of (step true at_store)) 0 = 7.
Proof.
  assert (Hop : Z.shiftr (fst (fetch at_store)) 12 = OP_STR)
    by (vm_compute; reflexivity).
  split; [exact Hop |].
  split; [vm_compute; reflexivity |]. split; [vm_compute; reflexivity |].
  split; [vm_compute; reflexivity |].
  destruct (stores_write_one_cell true at_store) as (_ & Hstr & _).
  rewrite (Hstr Hop). vm_compute. reflexivity.
Defined.

Lemma mem_read_kbsr_value (s : state) :
  fst (mem_read MR_KBSR s) = 0 \/ fst (mem_read MR_KBSR s) = 0x8000.
Proof.
  unfold mem_read. rewrite Z.eqb_refl. cbn [fst].
  destruct (check_key (io s)).
  - right. cbn [io set_mem]. destruct (getchar (io s)). reflexivity.
  - left. reflexivity.
Qed.

(** X16. A word stored with STR is read back by an LDR with the same base
    register and offset executed next. The keyboard-status address is the
    exception: what is stored there is overwritten by the poll of the next
    read, which returns 0 or 0x8000 whatever was stored. *)
Theorem store_then_load (sc : bool) (s : state) :
  let i1 := fst (fetch s) in
  let s1 := state_of (step sc s) in
  let i2 := fst (fetch s1) in
  let s2 := state_of (step sc s1) in
  let a := u16 (reg s (SR1 i1) + sign_extend (Z.land i1 0x3F) 6) in
  Z.shiftr i1 12 = OP_STR ->
  Z.shiftr i2 12 = OP_LDR ->
  SR1 i2 = SR1 i1 -> Z.land i2 0x3F = Z.land i1 0x3F ->
  (a <> MR_KBSR -> reg s2 (DR i2) = reg s (DR i1)) /\
  (a = MR_KBSR -> reg s2 (DR i2) = 0 \/ reg s2 (DR i2) = 0x8000).
Proof.
  intros i1 s1 i2 s2 a Hop1 Hop2 Hbase Hoff.
  unfold i1 in Hop1. unfold i2 in Hop2.
  pose proof (SR1_range i1) as Hsr. pose proof (DR_range i2) as Hdr.
  assert (Hs1 : s1 = set_mem (set_reg s R_PC (u16 (reg s R_PC + 1))) a
                             (reg s (DR i1))).
  { unfold s1. now rewrite (step_str sc s Hop1). }
  assert (Hs2 : s2 = update_flags (DR i2)
                       (set_reg (snd (mem_read a (set_reg s1 R_PC (u16 (reg s1 R_PC + 1)))))
                                (DR i2)
                                (fst (mem_read a (set_reg s1 R_PC (u16 (reg s1 R_PC + 1))))))).
  { unfold s2. enter_handler sc s1 Hop2. fold i2. unfold op_ldr. cbv zeta.
    replace (u16 (reg (set_reg s1 R_PC (u16 (reg s1 R_PC + 1))) (SR1 i2)
                  + sign_extend (Z.land i2 63) 6)) with a.
    - destruct (mem_read a _). reflexivity.
    - unfold a. rewrite Hbase, Hoff. cbn [reg set_reg].
      rewrite upd_other by (unfold R_PC; lia).
      rewrite Hs1. cbn [reg set_mem set_reg].
      now rewrite upd_other by (unfold R_PC; lia). }
  rewrite Hs2, loaded_register by assumption.
  split.
  - intro Ha. rewrite mem_read_passive by assumption. cbn [fst mem set_reg].
    rewrite Hs1. cbn [mem set_mem]. apply upd_same.
  - intros ->. apply mem_read_kbsr_value.
Qed.

Lemma store_then_load_witness :
  Z.shiftr (fst (fetch at_store)) 12 = OP_STR /\
  Z.shiftr (fst (fetch (state_of (step true at_store)))) 12 = OP_LDR /\
  reg at_store R_R0 = 7 /\ reg at_store R_R2 = 0 /\
  reg (state_of (step true (state_of (step true at_store)))) R_R2 = 7.
Proof.
  assert (Hop1 : Z.shiftr (fst (fetch at_store)) 12 = OP_STR)
    by (vm_compute; reflexivity).
  assert (Hop2 : Z.shiftr (fst (fetch (state_of (step true at_store)))) 12 = OP_LDR)
    by (vm_compute; reflexivity).
  split; [exact Hop1 |]. split; [exact Hop2 |].
  split; [vm_compute; reflexivity |]. split; [vm_compute; reflexivity |].
  destruct (store_then_load true at_store Hop1 Hop2) as (Hback & _);
    [vm_compute; reflexivity | vm_compute; reflexivity |].
  etransitivity; [apply Hback; vm_compute; discriminate | vm_compute; reflexivity].
Defined.

(** ** The trap routines *)

Lemma step_trap (sc : bool) (s : state) :
  Z.shiftr (fst (fetch s)) 12 = OP_TRAP ->
  step sc s = op_trap sc (fst (fetch s)) (set_reg s R_PC (u16 (reg s R_PC + 1))).
Proof. intro Hop. enter_handler sc s Hop. reflexivity. Qed.

(** X17. TRAP HALT ends the loop: the turn ends halted, with the return
    address in R7 and the line [HALT] appended to the output and nothing
    else changed, and however many turns the loop is granted, the
    instructions after the HALT are not executed. *)
Theorem halt_stops (sc : bool) (s : state) :
  let instr := fst (fetch s) in
  let pc := u16 (reg s R_PC + 1) in
  Z.shiftr instr 12 = OP_TRAP ->
  Z.land instr 0xFF = TRAP_HALT ->
  step sc s =
    Halted (set_io (set_reg (set_reg s R_PC pc) R_R7 pc)
                   (written halt_line (io s))) /\
  forall n, run sc (S n) s = step sc s.
Proof.
  intros instr pc Hop Hvec. unfold instr in Hop.
  assert (Hstep : step sc s =
            Halted (set_io (set_reg (set_reg s R_PC pc) R_R7 pc)
                           (written halt_line (io s)))).
  { rewrite (step_trap sc s Hop). fold instr. unfold op_trap.
    rewrite Hvec. reflexivity. }
  split; [exact Hstep |].
  intro n. cbn [run]. now rewrite Hstep.
Qed.

Lemma halt_stops_witness :
  Z.shiftr (fst (fetch (boot prog_halt quiet))) 12 = OP_TRAP /\
  Z.land (fst (fetch (boot prog_halt quiet))) 0xFF = TRAP_HALT /\
  is_halted (run true 5 (boot prog_halt quiet)) = true /\
  reg (state_of (run true 5 (boot prog_halt quiet))) R_R0 = 0 /\
  out (io (state_of (run true 5 (boot prog_halt quiet)))) = halt_line.
Proof.
  assert (Hop : Z.shiftr (fst (fetch (boot prog_halt quiet))) 12 = OP_TRAP)
    by (vm_compute; reflexivity).
  assert (Hvec : Z.land (fst (fetch (boot prog_halt quiet))) 0xFF = TRAP_HALT)
    by (vm_compute; reflexivity).
  split; [exact Hop |]. split; [exact Hvec |].
  destruct (halt_stops true (boot prog_halt quiet) Hop Hvec) as (Hstep & Hrun).
  rewrite (Hrun 4%nat), Hstep. repeat split.
Defined.

(** X18. TRAP OUT appends to the output the low byte of R0, one character,
    and apart from the return address in R7 changes nothing else. *)
Theorem out_writes_low_byte (sc : bool) (s : state) :
  let instr := fst (fetch s) in
  let pc := u16 (reg s R_PC + 1) in
  Z.shiftr instr 12 = OP_TRAP ->
  Z.land instr 0xFF = TRAP_OUT ->
  step sc s =
    Running (set_io (set_reg (set_reg s R_PC pc) R_R7 pc)
                    (written [char_of_int (low_byte (reg s R_R0))] (io s))).
Proof.
  intros instr pc Hop Hvec. unfold instr in Hop.
  rewrite (step_trap sc s Hop). fold instr. unfold op_trap.
  rewrite Hvec. cbv beta iota zeta. fold pc.
  now rewrite putc_char.
Qed.

Lemma out_writes_low_byte_witness :
  Z.shiftr (fst (fetch at_out)) 12 = OP_TRAP /\
  Z.land (fst (fetch at_out)) 0xFF = TRAP_OUT /\
  reg at_out R_R0 = 0xFFE9 /\
  out (io (state_of (step true at_out))) = prompt ++ ["233"; "233"]%char.
Proof.
  assert (Hop : Z.shiftr (fst (fetch at_out)) 12 = OP_TRAP)
    by (vm_compute; reflexivity).
  assert (Hvec : Z.land (fst (fetch at_out)) 0xFF = TRAP_OUT)
    by (vm_compute; reflexivity).
  split; [exact Hop |]. split; [exact Hvec |].
  split; [vm_compute; reflexivity |].
  rewrite (out_writes_low_byte true at_out Hop Hvec). vm_compute. reflexivity.
Defined.

Lemma char_of_byte_val (c : ascii) : char_of_int (byte_val c) = c.
Proof.
  unfold char_of_int, byte_val.
  rewrite Z.mod_small by apply char_code_range.
  now rewrite N2Z.id, ascii_N_embedding.
Qed.

Lemma word_of_char (sc : bool) (b : Z) :
  0 <= b < 256 ->
  u16 (int_of_char sc b) = if sc && (128 <=? b) then 0xFF00 + b else b.
Proof.
  intro Hb. unfold int_of_char, u16. cbv zeta. change MEM_MAX with 65536.
  rewrite (Z.mod_small b 256) by assumption.
  destruct (sc && (128 <=? b)); Z.div_mod_to_equations; lia.
Qed.

Lemma op_trap_getc (sc : bool) (instr : Z) (s : state) :
  Z.land instr 0xFF = TRAP_GETC ->
  op_trap sc instr s =
    let s := set_reg s R_R7 (reg s R_PC) in
    if stdin_ready (io s) then
      let (c, h) := getchar (io s) in
      Running (set_reg (set_io s h) R_R0 (u16 c))
    else Blocked s.
Proof. intro Hv. unfold op_trap. rewrite Hv. reflexivity. Qed.

Lemma op_trap_in (sc : bool) (instr : Z) (s : state) :
  Z.land instr 0xFF = TRAP_IN ->
  op_trap sc instr s =
    let s := set_reg s R_R7 (reg s R_PC) in
    let s := set_io s (put_string "Enter a character: " (io s)) in
    if stdin_ready (io s) then
      let (i, h) := getchar (io s) in
      let c := int_of_char sc i in
      Running (set_reg (set_io s (putc c h)) R_R0 (u16 c))
    else Blocked s.
Proof. intro Hv. unfold op_trap. rewrite Hv. reflexivity. Qed.

(** X19. The input traps with a character [c] waiting. GETC takes [c]
    from the input, leaves its code in R0 and writes nothing. IN first
    writes its prompt, then takes [c], echoes it and leaves in R0 the code
    of [c] converted through the C type [char]: the code itself when it is
    below 128 or [char] is unsigned, the code plus 0xFF00 otherwise. In
    both cases R7 receives the return address and nothing else changes:
    the flags are not updated for the new value of R0. *)
Theorem input_traps_take_one_key (sc : bool) (s : state) (c : ascii)
  (k : list ascii) :
  let instr := fst (fetch s) in
  let pc := u16 (reg s R_PC + 1) in
  let s7 := set_reg (set_reg s R_PC pc) R_R7 pc in
  Z.shiftr instr 12 = OP_TRAP ->
  keys (io s) = c :: k ->
  (Z.land instr 0xFF = TRAP_GETC ->
   step sc s =
     Running (set_reg (set_io s7 (mkHost k (closed (io s)) (out (io s))
                                         (left_in_buffer (io s)) (bufsiz (io s))))
                      R_R0 (byte_val c))) /\
  (Z.land instr 0xFF = TRAP_IN ->
   step sc s =
     Running (set_reg
                (set_io s7 (mkHost k (closed (io s))
                                   ((out (io s) ++ prompt) ++ [c])
                                   (left_in_buffer (io s)) (bufsiz (io s))))
                R_R0
                (if sc && (128 <=? byte_val c)
                 then 0xFF00 + byte_val c else byte_val c))).
Proof.
  intros instr pc s7 Hop Hk. unfold instr in Hop.
  rewrite (step_trap sc s Hop). fold instr pc.
  pose proof (byte_val_range c) as Hc.
  split; intro Hvec;
    [rewrite (op_trap_getc sc instr _ Hvec) | rewrite (op_trap_in sc instr _ Hvec)];
    cbv zeta; unfold stdin_ready, getchar, put_string, left_in_buffer;
    cbn [io set_reg set_io keys closed out buffered bufsiz]; rewrite Hk.
  - rewrite u16_small by (fold (byte_val c); change MEM_MAX with 65536; lia).
    reflexivity.
  - fold (byte_val c). cbv beta iota zeta.
    unfold putc. cbn [keys closed out buffered bufsiz].
    rewrite char_of_int_char, Z.mod_small, char_of_byte_val by assumption.
    now rewrite word_of_char.
Qed.

Lemma input_traps_take_one_key_witness :
  Z.shiftr (fst (fetch (boot [0xF023] typed_233))) 12 = OP_TRAP /\
  keys (io (boot [0xF023] typed_233)) = ["233"%char] /\
  Z.land (fst (fetch (boot [0xF023] typed_233))) 0xFF = TRAP_IN /\
  reg (state_of (step true (boot [0xF023] typed_233))) R_R0 = 0xFFE9 /\
  reg (state_of (step false (boot [0xF023] typed_233))) R_R0 = 0x00E9 /\
  reg (state_of (step true (boot [0xF023] typed_233))) R_COND = FL_ZRO.
Proof.
  assert (Hop : Z.shiftr (fst (fetch (boot [0xF023] typed_233))) 12 = OP_TRAP)
    by (vm_compute; reflexivity).
  assert (Hk : keys (io (boot [0xF023] typed_233)) = ["233"%char]) by reflexivity.
  assert (Hvec : Z.land (fst (fetch (boot [0xF023] typed_233))) 0xFF = TRAP_IN)
    by (vm_compute; reflexivity).
  split; [exact Hop |]. split; [exact Hk |]. split; [exact Hvec |].
  destruct (input_traps_take_one_key true (boot [0xF023] typed_233)
              "233"%char [] Hop Hk) as (_ & Hsigned).
  destruct (input_traps_take_one_key false (boot [0xF023] typed_233)
              "233"%char [] Hop Hk) as (_ & Hunsigned).
  rewrite (Hsigned Hvec), (Hunsigned Hvec). vm_compute. repeat split.
Defined.

(** X20. The input traps with no character waiting. While stdin is open
    the machine waits inside the trap, IN having already written its
    prompt. At end of file [getchar] returns EOF: GETC leaves 0xFFFF in R0,
    and IN echoes the byte 255 and leaves 0xFFFF in R0 when [char] is
    signed, 0x00FF when it is not; the program goes on in both cases. *)
Theorem input_traps_without_key (sc : bool) (s : state) :
  let instr := fst (fetch s) in
  let pc := u16 (reg s R_PC + 1) in
  let s7 := set_reg (set_reg s R_PC pc) R_R7 pc in
  Z.shiftr instr 12 = OP_TRAP ->
  keys (io s) = [] ->
  (closed (io s) = false ->
   (Z.land instr 0xFF = TRAP_GETC -> step sc s = Blocked s7) /\
   (Z.land instr 0xFF = TRAP_IN ->
    step sc s = Blocked (set_io s7 (written prompt (io s))))) /\
  (closed (io s) = true ->
   (Z.land instr 0xFF = TRAP_GETC ->
    step sc s = Running (set_reg s7 R_R0 0xFFFF)) /\
   (Z.land instr 0xFF = TRAP_IN ->
    step sc s =
      Running (set_reg
                 (set_io s7 (written ["255"%char] (written prompt (io s))))
                 R_R0 (if sc then 0xFFFF else 0x00FF)))).
Proof.
  intros instr pc s7 Hop Hk. unfold instr in Hop.
  rewrite (step_trap sc s Hop). fold instr pc.
  split; intro Hclosed; split; intro Hvec;
    [rewrite (op_trap_getc sc instr _ Hvec) | rewrite (op_trap_in sc instr _ Hvec)
    |rewrite (op_trap_getc sc instr _ Hvec) | rewrite (op_trap_in sc instr _ Hvec)];
    cbv zeta; unfold stdin_ready, getchar, put_string, written;
    cbn [io set_reg set_io keys closed out buffered bufsiz]; rewrite Hk, Hclosed;
    try reflexivity; destruct sc; reflexivity.
Qed.

Lemma input_traps_without_key_witness :
  Z.shiftr (fst (fetch (boot prog_io at_eof))) 12 = OP_TRAP /\
  keys (io (boot prog_io at_eof)) = [] /\
  closed (io (boot prog_io at_eof)) = true /\
  Z.land (fst (fetch (boot prog_io at_eof))) 0xFF = TRAP_GETC /\
  reg (state_of (step true (boot prog_io at_eof))) R_R0 = 0xFFFF /\
  is_blocked (step true (boot prog_io quiet)) = true.
Proof.
  assert (Hop : Z.shiftr (fst (fetch (boot prog_io at_eof))) 12 = OP_TRAP)
    by (vm_compute; reflexivity).
  assert (Hvec : Z.land (fst (fetch (boot prog_io at_eof))) 0xFF = TRAP_GETC)
    by (vm_compute; reflexivity).
  split; [exact Hop |]. split; [reflexivity |]. split; [reflexivity |].
  split; [exact Hvec |].
  destruct (input_traps_without_key true (boot prog_io at_eof) Hop eq_refl)
    as (_ & Heof).
  destruct (Heof eq_refl) as (Hgetc & _).
  destruct (input_traps_without_key true (boot prog_io quiet) Hop eq_refl)
    as (Hopen & _).
  destruct (Hopen eq_refl) as (Hwait & _).
  rewrite (Hgetc Hvec), (Hwait Hvec). split; reflexivity.
Defined.

Lemma puts_loop_overrun (sc : bool) (m : Z -> Z) (room : nat) :
  forall (c : Z) (h : host),
    (forall i, (i < room)%nat -> m (c + Z.of_nat i) <> 0) ->
    puts_loop sc room m c h = None /\ putsp_loop sc room m c h = None.
Proof.
  induction room as [| room IH]; intros c h Hnz; [split; reflexivity |].
  assert (Hc : (m c =? 0) = false).
  { apply Z.eqb_neq. specialize (Hnz 0%nat). rewrite Z.add_0_r in Hnz.
    apply Hnz. lia. }
  cbn [puts_loop putsp_loop]. rewrite Hc. cbn [negb]. cbv zeta.
  split; apply IH; intros i Hi;
    replace (c + 1 + Z.of_nat i) with (c + Z.of_nat (S i)) by lia;
    apply Hnz; lia.
Qed.

(** X21. PUTS and PUTSP have no bound of their own: when no cell from the
    address in R0 to the end of memory holds zero, the loop neither stops
    at the last cell nor wraps around to address 0, it reads past the end
    of the array. *)
Theorem string_traps_overrun (sc : bool) (s : state) :
  let instr := fst (fetch s) in
  Z.shiftr instr 12 = OP_TRAP ->
  Z.land instr 0xFF = TRAP_PUTS \/ Z.land instr 0xFF = TRAP_PUTSP ->
  (forall a, reg s R_R0 <= a < MEM_MAX -> mem s a <> 0) ->
  is_undefined (step sc s) = true.
Proof.
  intros instr Hop Hvec Hnz. unfold instr in Hop.
  rewrite (step_trap sc s Hop). fold instr.
  set (s1 := set_reg s R_PC (u16 (reg s R_PC + 1))).
  assert (Hloops :
            puts_loop sc (Z.to_nat (MEM_MAX - reg s1 R_R0)) (mem s1)
                      (reg s1 R_R0) (io s1) = None /\
            putsp_loop sc (Z.to_nat (MEM_MAX - reg s1 R_R0)) (mem s1)
                       (reg s1 R_R0) (io s1) = None).
  { apply puts_loop_overrun. intros i Hi.
    change (reg s1 R_R0) with (reg s R_R0) in *.
    change (mem s1) with (mem s). apply Hnz. lia. }
  destruct Hloops as [Hputs Hputsp].
  destruct Hvec as [Hvec | Hvec].
  - rewrite (op_trap_puts sc instr s1 Hvec). cbv zeta. now rewrite Hputs.
  - rewrite (op_trap_putsp sc instr s1 Hvec). cbv zeta. now rewrite Hputsp.
Qed.

Lemma string_traps_overrun_witness :
  Z.shiftr (fst (fetch at_unterminated)) 12 = OP_TRAP /\
  Z.land (fst (fetch at_unterminated)) 0xFF = TRAP_PUTS /\
  reg at_unterminated R_R0 = 0xFFFF /\
  mem at_unterminated 0xFFFF = 65 /\
  is_undefined (step true at_unterminated) = true.
Proof.
  assert (Hop : Z.shiftr (fst (fetch at_unterminated)) 12 = OP_TRAP)
    by (vm_compute; reflexivity).
  assert (Hvec : Z.land (fst (fetch at_unterminated)) 0xFF = TRAP_PUTS)
    by (vm_compute; reflexivity).
  assert (Hr0 : reg at_unterminated R_R0 = 0xFFFF) by (vm_compute; reflexivity).
  assert (Hlast : mem at_unterminated 0xFFFF = 65) by (vm_compute; reflexivity).
  split; [exact Hop |]. split; [exact Hvec |]. split; [exact Hr0 |].
  split; [exact Hlast |].
  apply (string_traps_overrun true at_unterminated Hop (or_introl Hvec)).
  intros a Ha. rewrite Hr0 in Ha. change MEM_MAX with 65536 in Ha.
  assert (a = 0xFFFF) as -> by lia.
  rewrite Hlast. discriminate.
Defined.

(** ** Unconditional branches and no-ops *)

(** X22. In every state the loop reaches, a BR whose mask has all three
    condition bits always branches, because the flags always hold one of
    them; a BR with an empty mask never does, in any state. In particular
    a zero word is a no-op. *)
Theorem br_always_and_never (sc : bool) (s : state) :
  let instr := fst (fetch s) in
  let pc := u16 (reg s R_PC + 1) in
  let s' := state_of (step sc s) in
  Z.shiftr instr 12 = OP_BR ->
  (reachable sc s -> Z.land (Z.shiftr instr 9) 0x7 = 7 ->
   reg s' R_PC = u16 (pc + sign_extend (Z.land instr 0x1FF) 9)) /\
  (Z.land (Z.shiftr instr 9) 0x7 = 0 -> step sc s = Running (snd (fetch s))) /\
  (instr = 0 -> reg s' R_PC = pc).
Proof.
  intros instr pc s' Hop. unfold instr in Hop.
  assert (Hstep : step sc s = op_br instr (snd (fetch s))).
  { rewrite step_fetch_execute. dispatch Hop. reflexivity. }
  assert (Hcond : reg (snd (fetch s)) R_COND = reg s R_COND)
    by (apply fetch_reg_other; discriminate).
  split; [| split].
  - intros Hreach Hmask. unfold s'. rewrite Hstep. unfold op_br.
    rewrite Hmask, Hcond, fetch_pc. fold pc.
    destruct (reachable_flags_ok sc s Hreach) as [-> | [-> | ->]];
      cbn [state_of reg set_reg]; apply upd_same.
  - intro Hmask. rewrite Hstep. unfold op_br. now rewrite Hmask.
  - intro Hzero. unfold s'. rewrite Hstep. unfold op_br. fold instr.
    rewrite Hzero. cbn [state_of]. apply fetch_pc.
Qed.

Lemma br_always_and_never_witness :
  Z.shiftr (fst (fetch (boot prog_brnzp quiet))) 12 = OP_BR /\
  reachable true (boot prog_brnzp quiet) /\
  Z.land (Z.shiftr (fst (fetch (boot prog_brnzp quiet))) 9) 0x7 = 7 /\
  reg (state_of (step true (boot prog_brnzp quiet))) R_PC = 0x3003 /\
  fst (fetch (boot [] quiet)) = 0 /\
  reg (state_of (step true (boot [] quiet))) R_PC = 0x3001.
Proof.
  assert (Hop : Z.shiftr (fst (fetch (boot prog_brnzp quiet))) 12 = OP_BR)
    by (vm_compute; reflexivity).
  assert (Hreach : reachable true (boot prog_brnzp quiet)) by apply reach_init.
  assert (Hmask : Z.land (Z.shiftr (fst (fetch (boot prog_brnzp quiet))) 9) 0x7 = 7)
    by (vm_compute; reflexivity).
  assert (Hzero : fst (fetch (boot [] quiet)) = 0) by (vm_compute; reflexivity).
  split; [exact Hop |]. split; [exact Hreach |]. split; [exact Hmask |].
  destruct (br_always_and_never true (boot prog_brnzp quiet) Hop) as (Htaken & _).
  destruct (br_always_and_never true (boot [] quiet) eq_refl) as (_ & _ & Hnop).
  split; [| split; [exact Hzero |]].
  - etransitivity; [exact (Htaken Hreach Hmask) | vm_compute; reflexivity].
  - etransitivity; [exact (Hnop Hzero) | vm_compute; reflexivity].
Defined.

(** ** sign_extend at any width *)

(** The test of [sign_extend] reads the bit [bit_count - 1]. *)
Lemma sign_test_bit (x k : Z) :
  0 <= k -> negb (Z.land (Z.shiftr x k) 1 =? 0) = Z.testbit x k.
Proof.
  intro Hk. rewrite land_1.
  rewrite <- (Z.add_0_l k) at 2.
  rewrite <- (Z.shiftr_spec x k 0), Z.bit0_odd by lia.
  rewrite Zmod_odd. now destruct (Z.odd (Z.shiftr x k)).
Qed.

Lemma sign_extend_bits (x n : Z) :
  1 <= n ->
  sign_extend x n =
    if Z.testbit x (n - 1) then u16 (Z.lor x (Z.shiftl 0xFFFF n)) else x.
Proof. intro Hn. unfold sign_extend. now rewrite sign_test_bit by lia. Qed.

(** X23. [sign_extend] at any width for which the C code is defined, from
    1 to 15 bits. Extending twice at the same width is the same as
    extending once, for every input; and for a field of [n] bits the
    result is a 16-bit word with the two's-complement value of the
    field. *)
Theorem sign_extend_any_width (v n : Z) :
  1 <= n <= 15 ->
  sign_extend (sign_extend v n) n = sign_extend v n /\
  (0 <= v < 2 ^ n ->
   0 <= sign_extend v n < MEM_MAX /\
   signed 16 (sign_extend v n) = signed n v).
Proof.
  intro Hn. split.
  - rewrite (sign_extend_bits v n) by lia.
    destruct (Z.testbit v (n - 1)) eqn:Hbit.
    + set (r := u16 (Z.lor v (Z.shiftl 0xFFFF n))).
      assert (Hr : forall i, 0 <= i ->
                 Z.testbit r i =
                   if i <? 16 then Z.testbit v i || Z.testbit (Z.shiftl 0xFFFF n) i
                   else false).
      { intros i Hi. unfold r, u16. change MEM_MAX with (2 ^ 16).
        destruct (Z.ltb_spec i 16).
        - rewrite Z.mod_pow2_bits_low, Z.lor_spec by lia. reflexivity.
        - apply Z.mod_pow2_bits_high. lia. }
      rewrite (sign_extend_bits r n) by lia.
      rewrite (Hr (n - 1)) by lia.
      destruct (Z.ltb_spec (n - 1) 16); [| lia].
      rewrite Hbit. cbn [orb].
      apply Z.bits_inj'. intros i Hi. rewrite (Hr i Hi).
      unfold u16. change MEM_MAX with (2 ^ 16).
      destruct (Z.ltb_spec i 16).
      * rewrite Z.mod_pow2_bits_low, Z.lor_spec, (Hr i Hi) by lia.
        destruct (Z.ltb_spec i 16); [| lia].
        now destruct (Z.testbit v i), (Z.testbit (Z.shiftl 65535 n) i).
      * apply Z.mod_pow2_bits_high. lia.
    + rewrite (sign_extend_bits v n) by lia. now rewrite Hbit.
  - intro Hv.
    set (P := 2 ^ (n - 1)).
    assert (HP : 0 < P) by (apply Z.pow_pos_nonneg; lia).
    assert (H2 : 2 ^ n = 2 * P).
    { unfold P. rewrite <- Z.pow_succ_r by lia. f_equal. lia. }
    assert (HPmax : P <= 2 ^ 14) by (apply Z.pow_le_mono_r; lia).
    change (2 ^ 14) with 16384 in HPmax.
    rewrite H2 in Hv.
    unfold sign_extend.
    rewrite sign_test, lor_shiftl_low by (rewrite ?H2; lia).
    fold P. rewrite H2.
    unfold signed. rewrite H2. fold P.
    change (2 ^ 16) with 65536. change (2 ^ (16 - 1)) with 32768.
    change MEM_MAX with 65536. unfold u16. change MEM_MAX with 65536.
    destruct (Z.lt_ge_cases v P) as [Hlt | Hge].
    + rewrite (Z.div_small v P) by lia.
      change (0 mod 2) with 0. cbn [Z.eqb negb].
      rewrite (Z.mod_small v 65536), (Z.mod_small v (2 * P)) by lia.
      destruct (Z.leb_spec 32768 v), (Z.leb_spec P v); lia.
    + replace (v / P) with 1 by (apply (Z.div_unique v P 1 (v - P)); lia).
      change (1 mod 2) with 1. cbn [Z.eqb negb].
      replace (v + 65535 * (2 * P)) with (v - 2 * P + 65536 + (2 * P - 1) * 65536)
        by ring.
      rewrite Z.mod_add by discriminate.
      rewrite !(Z.mod_small (v - 2 * P + 65536) 65536) by lia.
      rewrite (Z.mod_small v (2 * P)) by lia.
      destruct (Z.leb_spec 32768 (v - 2 * P + 65536)), (Z.leb_spec P v); lia.
Qed.

Lemma sign_extend_any_width_witness :
  1 <= 3 <= 15 /\ 0 <= 5 < 2 ^ 3 /\
  sign_extend 5 3 = 0xFFFD /\ signed 16 (sign_extend 5 3) = -3 /\ signed 3 5 = -3.
Proof.
  assert (Hn : 1 <= 3 <= 15) by lia.
  assert (Hv : 0 <= 5 < 2 ^ 3) by (change (2 ^ 3) with 8; lia).
  split; [exact Hn |]. split; [exact Hv |]. split; [reflexivity |].
  destruct (sign_extend_any_width 5 3 Hn) as (_ & Hfield).
  destruct (Hfield Hv) as (_ & Hval).
  split; [rewrite Hval |]; reflexivity.
Defined.
